(** * ReportGenius: content renderer, document/version model and export

    A shallow embedding of the pure parts of the application:
    - [ContentRenderer] (App.tsx): the four-pass string pipeline that turns
      section text and the attachment store into markup;
    - the [App] handlers that update [reportData] (template selection,
      edits, version save/restore, attachment insertion);
    - [exportToDocx] (services/exportService.ts): the markup dump and the
      name of the downloaded file;
    - [getClient], [generateSectionContent] (services/geminiService.ts) and
      [handleAiGenerate]: the outcome of a generation request, with the
      behaviour of the service as an input.

    JavaScript strings are sequences of UTF-16 code units; a code unit is a
    number [N] and a string is a [list N].  Objects used as records of
    strings ([Record<string,string>]) are finite maps. *)

From Stdlib Require Import NArith List Lia Ascii String DecimalString DecimalN.
From stdpp Require Import gmap list strings.

Local Open Scope N_scope.
Local Open Scope list_scope.

(** ** Strings *)

Abbreviation jsstring := (list N).

(** The type of [katex.renderToString] when KaTeX is loaded, and of the
    table of inherited properties (see [ContentRenderer] below). *)
Abbreviation Katex := (option (list N -> bool -> option (list N))).
Abbreviation Inherited := (list N -> option (list N)).

(** Code units the program names. *)
Module Ch.
Definition amp : N := 38.
Definition lt : N := 60.
Definition gt : N := 62.
Definition dquote : N := 34.
Definition squote : N := 39.
Definition dollar : N := 36.
Definition bang : N := 33.
Definition lbracket : N := 91.
Definition rbracket : N := 93.
Definition rparen : N := 41.
Definition newline : N := 10.
Definition cr : N := 13.
Definition lsep : N := 8232.
Definition psep : N := 8233.
End Ch.

(** Code units of an ASCII literal. *)
Fixpoint str (s : string) : jsstring :=
  match s with
  | EmptyString => []
  | String a s' => Ascii.N_of_ascii a :: str s'
  end.

(** The same for a literal that contains double quotes: they are written as
    single quotes in the literal (none of the source's literals that need
    this contains a single quote). *)
Fixpoint strq (s : string) : jsstring :=
  match s with
  | EmptyString => []
  | String a s' =>
      (if N.eqb (Ascii.N_of_ascii a) Ch.squote then Ch.dquote
       else Ascii.N_of_ascii a) :: strq s'
  end.

(** [String(n)] for a non-negative integer. *)
Definition toDecimal (n : N) : jsstring :=
  str (NilEmpty.string_of_uint (N.to_uint n)).

(** [s.startsWith(p)], returning the remainder after the prefix. *)
Fixpoint stripPrefix (p s : jsstring) : option jsstring :=
  match p with
  | [] => Some s
  | a :: p' =>
      match s with
      | [] => None
      | b :: s' => if N.eqb a b then stripPrefix p' s' else None
      end
  end.

Definition startsWith (s p : jsstring) : bool :=
  match stripPrefix p s with Some _ => true | None => false end.

Definition endsWith (s p : jsstring) : bool :=
  startsWith (rev s) (rev p).

(** [s.slice(a, -b)] for [a], [b] counted in code units; empty when the two
    cuts cross, as in JavaScript. *)
Definition sliceBoth (a b : nat) (s : jsstring) : jsstring :=
  take (length s - b - a)%nat (drop a s).

(** ** Regular expressions

    The renderer uses four shapes of pattern: a literal, and literals
    separated by lazy quantifiers ([.*?] or [[\s\S]*?]).  A matcher takes the
    text at the current position and returns what it captured together with
    the text after the match; [None] is a failed match. *)

Definition isLineTerminator (c : N) : bool :=
  N.eqb c Ch.newline || N.eqb c Ch.cr || N.eqb c Ch.lsep || N.eqb c Ch.psep.

(** The class [.] (no [s] flag): anything but a line terminator. *)
Definition dot (c : N) : bool := negb (isLineTerminator c).

(** The class [[\s\S]]: any code unit. *)
Definition anyChar (_ : N) : bool := true.

(** A lazy quantifier [cls*?] followed by the rest [k] of the pattern: the
    rest is tried first and one more character of the class is consumed only
    when the rest fails there (backtracking order of a lazy quantifier). *)
Fixpoint lazyStar {R : Type} (cls : N -> bool) (k : jsstring -> option R)
    (s : jsstring) : option (jsstring * R) :=
  match k s with
  | Some r => Some ([], r)
  | None =>
      match s with
      | [] => None
      | c :: s' =>
          if cls c
          then match lazyStar cls k s' with
               | Some (cap, r) => Some (c :: cap, r)
               | None => None
               end
          else None
      end
  end.

(** [s.replace(re, f)] with the [g] flag and a callback [f]: the scan goes
    left to right, every match is replaced by [f] of its captures and the
    scan resumes at the end of the match.  [skip] counts the characters of
    the current match that are still to be passed over.  The patterns of
    this program never match the empty string. *)
Fixpoint replaceAllFrom {C : Type} (re : jsstring -> option (C * jsstring))
    (f : C -> jsstring) (skip : nat) (s : jsstring) : jsstring :=
  match s with
  | [] => []
  | c :: s' =>
      match skip with
      | S k => replaceAllFrom re f k s'
      | O =>
          match re s with
          | Some (cap, rest) =>
              f cap ++ replaceAllFrom re f (length s - length rest - 1) s'
          | None => c :: replaceAllFrom re f 0 s'
          end
      end
  end.

Definition replaceAll {C : Type} (re : jsstring -> option (C * jsstring))
    (f : C -> jsstring) (s : jsstring) : jsstring :=
  replaceAllFrom re f 0 s.

(** A literal pattern. *)
Definition literal (pat : jsstring) (s : jsstring) : option (unit * jsstring) :=
  rest ← stripPrefix pat s; Some (tt, rest).

(** [s.replace(/pat/g, rep)] for a literal pattern and a replacement string
    without [$]. *)
Definition replaceLit (pat rep s : jsstring) : jsstring :=
  replaceAll (literal pat) (fun _ => rep) s.

(** [s.split(re)] where [re] is one capturing group around the whole
    pattern: the pieces between the matches alternate with the matches
    themselves, and the result starts and ends with a (possibly empty)
    piece of text. *)
Fixpoint splitFrom (re : jsstring -> option (jsstring * jsstring))
    (skip : nat) (s : jsstring) : list jsstring :=
  match s with
  | [] => [[]]
  | c :: s' =>
      match skip with
      | S k => splitFrom re k s'
      | O =>
          match re s with
          | Some (whole, _) => [] :: whole :: splitFrom re (length whole - 1) s'
          | None =>
              match splitFrom re 0 s' with
              | piece :: pieces => (c :: piece) :: pieces
              | [] => [[c]]
              end
          end
      end
  end.

Definition split (re : jsstring -> option (jsstring * jsstring))
    (s : jsstring) : list jsstring :=
  splitFrom re 0 s.

(** Whether the pattern matches at some position of the text. *)
Fixpoint matchesAnywhere {C : Type} (re : jsstring -> option C) (s : jsstring)
  : bool :=
  match s with
  | [] => false
  | _ :: s' =>
      match re s with
      | Some _ => true
      | None => matchesAnywhere re s'
      end
  end.

(** ** Pass 1: [escapeHtml] *)

Definition escapeHtml (unsafe : jsstring) : jsstring :=
  replaceLit [Ch.squote] (str "&#039;")
    (replaceLit [Ch.dquote] (str "&quot;")
       (replaceLit [Ch.gt] (str "&gt;")
          (replaceLit [Ch.lt] (str "&lt;")
             (replaceLit [Ch.amp] (str "&amp;") unsafe)))).

(** ** Pass 2: image references *)

(** [/!\[(.*?)\]\(attachment:(.*?)\)/]: captures (alt, id).  [afterAlt] is
    the part of the pattern after the first group. *)
Definition afterAlt (s : jsstring) : option (jsstring * jsstring) :=
  r ← stripPrefix (str "](attachment:") s;
  lazyStar dot (stripPrefix (str ")")) r.

Definition imageRe (s : jsstring) : option ((jsstring * jsstring) * jsstring) :=
  r ← stripPrefix (str "![") s;
  '(alt, (id, rest)) ← lazyStar dot afterAlt r;
  Some ((alt, id), rest).

(** ** Pass 3: math *)

(** [/(\$\$[\s\S]*?\$\$|\$[\s\S]*?\$)/]: the block form is tried first; the
    capture is the whole match. *)
Definition mathRe (s : jsstring) : option (jsstring * jsstring) :=
  match r ← stripPrefix (str "$$") s; lazyStar anyChar (stripPrefix (str "$$")) r with
  | Some (body, rest) => Some (str "$$" ++ body ++ str "$$", rest)
  | None =>
      '(body, rest) ← (r ← stripPrefix (str "$") s;
                       lazyStar anyChar (stripPrefix (str "$")) r);
      Some (str "$" ++ body ++ str "$", rest)
  end.

(** Number of [$] characters of a text. *)
Definition dollars (s : jsstring) : nat := count_occ N.eq_dec s Ch.dollar.

(** ** Pass 4: placeholders *)

(** [/\$\$IMG_START\$\$(.*?)\$\$IMG_SEP\$\$(.*?)\$\$IMG_END\$\$/]: captures
    (src, alt). *)
Definition afterSrc (s : jsstring) : option (jsstring * jsstring) :=
  r ← stripPrefix (str "$$IMG_SEP$$") s;
  lazyStar dot (stripPrefix (str "$$IMG_END$$")) r.

Definition placeholderRe (s : jsstring)
  : option ((jsstring * jsstring) * jsstring) :=
  r ← stripPrefix (str "$$IMG_START$$") s;
  '(src, (alt, rest)) ← lazyStar dot afterSrc r;
  Some ((src, alt), rest).

(** The markup of a resolved image: the template literal of pass 4, with its
    line breaks and indentation. *)
Definition imageMarkup (src alt : jsstring) : jsstring :=
  strq "<div class='my-6 flex flex-col items-center'>" ++ [Ch.newline]
  ++ strq "                <img src='" ++ src ++ strq "' alt='" ++ alt
  ++ strq "' class='max-w-full h-auto max-h-[500px] rounded-lg shadow-md border border-gray-200' />"
  ++ [Ch.newline]
  ++ strq "                <span class='text-sm text-gray-500 mt-2 italic'>"
  ++ alt ++ str "</span>" ++ [Ch.newline]
  ++ str "              </div>".

(** ** The renderer *)

Section ContentRenderer.

(** [window.katex.renderToString], when the page has loaded KaTeX; a
    result [None] stands for a thrown exception. *)
Variable katex : Katex.

(** What [`${o[k]}`] shows for a key [k] that every object inherits
    ([constructor], [toString], ...): [attachments[id]] reads through the
    prototype chain.  All inherited values are functions or objects. *)
Variable inherited : Inherited.

Definition renderMath (math : jsstring) (displayMode : bool) : jsstring :=
  match katex with
  | Some renderToString =>
      match renderToString math displayMode with
      | Some html => html
      | None => math
      end
  | None => math
  end.

(** The callback of pass 2.  [if (src)] holds for a non-empty own string
    and for every inherited value. *)
Definition resolveImage (attachments : gmap jsstring jsstring)
    (cap : jsstring * jsstring) : jsstring :=
  let '(alt, id) := cap in
  let placeholder src :=
    str "$$IMG_START$$" ++ src ++ str "$$IMG_SEP$$" ++ alt ++ str "$$IMG_END$$" in
  let broken := str "[Broken Image: " ++ alt ++ str "]" in
  match attachments !! id with
  | Some [] => broken
  | Some src => placeholder src
  | None =>
      match inherited id with
      | Some src => placeholder src
      | None => broken
      end
  end.

Definition unescapeAngles (s : jsstring) : jsstring :=
  replaceLit (str "&gt;") (str ">") (replaceLit (str "&lt;") (str "<") s).

(** [part.replace(/\n/g, '<br/>')]. *)
Definition lineBreaks (part : jsstring) : jsstring :=
  replaceLit [Ch.newline] (str "<br/>") part.

(** The callback of [parts.map] in pass 3. *)
Definition renderPart (part : jsstring) : jsstring :=
  if startsWith part (str "$$") && endsWith part (str "$$")
  then renderMath (unescapeAngles (sliceBoth 2 2 part)) true
  else if startsWith part (str "$") && endsWith part (str "$")
  then renderMath (unescapeAngles (sliceBoth 1 1 part)) false
  else lineBreaks part.

Definition pass1 (text : jsstring) : jsstring := escapeHtml text.

Definition pass2 (attachments : gmap jsstring jsstring) (safeHtml : jsstring)
  : jsstring :=
  replaceAll imageRe (resolveImage attachments) safeHtml.

Definition pass3 (safeHtml : jsstring) : jsstring :=
  concat (map renderPart (split mathRe safeHtml)).

Definition pass4 (htmlWithMath : jsstring) : jsstring :=
  replaceAll placeholderRe (fun '(src, alt) => imageMarkup src alt) htmlWithMath.

(** The string assigned to [innerHTML]. *)
Definition render (text : jsstring) (attachments : gmap jsstring jsstring)
  : jsstring :=
  pass4 (pass3 (pass2 attachments (pass1 text))).

End ContentRenderer.

(** ** Document model (types.ts)

    Of [SectionDefinition] and [ReportTemplate] only the fields read by the
    modelled code are kept. *)

Record SectionDefinition := {
  section_id : jsstring;
  section_label : jsstring
}.

Record ReportTemplate := {
  template_id : jsstring;
  title : jsstring;
  sections : list SectionDefinition
}.

Record ReportVersion := {
  version_id : jsstring;
  version_timestamp : N;
  version_name : option jsstring;
  version_values : gmap jsstring jsstring;
  version_attachments : option (gmap jsstring jsstring)
}.

Record ReportData := {
  templateId : jsstring;
  lastModified : N;
  values : gmap jsstring jsstring;
  attachments : gmap jsstring jsstring;
  history : list ReportVersion
}.

(** The record found under [LOCAL_STORAGE_KEY] after [JSON.parse]; records
    written by earlier versions of the application may lack [history] and
    [attachments].  [templateId] and [values] are read without a default and
    are taken to be present. *)
Record StoredRecord := {
  stored_templateId : jsstring;
  stored_lastModified : N;
  stored_values : gmap jsstring jsstring;
  stored_attachments : option (gmap jsstring jsstring);
  stored_history : option (list ReportVersion)
}.

(** [a || b] where [a] may be missing: a container is truthy, and for a
    string the only falsy value is the default itself. *)
Definition orElse {A : Type} (a : option A) (b : A) : A :=
  match a with Some x => x | None => b end.

(** ** Handlers of [App]

    [reportData] is a React state cell of type [ReportData | null]; it is
    the only cell modelled ([saveStatus], [showHistory] and the others do
    not enter the properties below).  A handler that calls
    [setReportData(prev => ...)] is modelled by that updater; [Date.now()]
    is an input of the handler. *)

(** The body of the auto-load effect: the parsed record with its missing
    containers defaulted.  The effect keeps the result in a local variable. *)
Definition autoLoad (saved : option StoredRecord) : option StoredRecord :=
  parsed ← saved;
  Some {| stored_templateId := stored_templateId parsed;
          stored_lastModified := stored_lastModified parsed;
          stored_values := stored_values parsed;
          stored_attachments := Some (orElse (stored_attachments parsed) ∅);
          stored_history := Some (orElse (stored_history parsed) []) |}.

(** The value [handleTemplateSelect] passes to [setReportData]. *)
Definition handleTemplateSelect (key : jsstring) (now : N)
    (saved : option StoredRecord) : ReportData :=
  let '(initialValues, initialHistory, initialAttachments) :=
    match saved with
    | Some parsed =>
        if decide (stored_templateId parsed = key)
        then (stored_values parsed,
              orElse (stored_history parsed) [],
              orElse (stored_attachments parsed) ∅)
        else (∅, [], ∅)
    | None => (∅, [], ∅)
    end in
  {| templateId := key;
     lastModified := now;
     values := initialValues;
     history := initialHistory;
     attachments := initialAttachments |}.

Definition handleInputChange (id value : jsstring) (now : N)
    (prev : option ReportData) : option ReportData :=
  match prev with
  | Some prev =>
      Some {| templateId := templateId prev;
              lastModified := now;
              values := <[id := value]> (values prev);
              attachments := attachments prev;
              history := history prev |}
  | None => None
  end.

(** The version built by [handleSaveVersion]; it reads the clock twice. *)
Definition newVersion (now1 now2 : N) (reportData : ReportData) : ReportVersion :=
  {| version_id := toDecimal now1;
     version_timestamp := now2;
     version_values := values reportData;
     version_attachments := Some (attachments reportData);
     version_name :=
       Some (str "Version " ++ toDecimal (N.of_nat (length (history reportData) + 1))) |}.

(** [reportData] is the value of the cell in the render that created the
    handler, [prev] the value the updater receives. *)
Definition handleSaveVersion (now1 now2 : N) (reportData : option ReportData)
    (prev : option ReportData) : option ReportData :=
  match reportData with
  | None => prev
  | Some reportData =>
      match prev with
      | Some prev =>
          Some {| templateId := templateId prev;
                  lastModified := lastModified prev;
                  values := values prev;
                  attachments := attachments prev;
                  history := take 30 (newVersion now1 now2 reportData :: history prev) |}
      | None => None
      end
  end.

(** [confirmed] is the answer of the [confirm] dialog. *)
Definition handleRestoreVersion (confirmed : bool) (now : N)
    (version : ReportVersion) (prev : option ReportData) : option ReportData :=
  if confirmed then
    match prev with
    | Some prev =>
        Some {| templateId := templateId prev;
                lastModified := now;
                values := version_values version;
                attachments := orElse (version_attachments version) ∅;
                history := history prev |}
    | None => None
    end
  else prev.

(** The selection of the section's textarea, when the element exists. *)
Record Textarea := {
  selectionStart : nat;
  selectionEnd : nat;
  textarea_value : jsstring
}.

(** [id] is [Date.now().toString(36) + Math.random().toString(36).substr(2)],
    a value of the environment; [now] is the clock read by the nested
    [handleInputChange]. *)
Definition insertAttachment (reportData : option ReportData)
    (activeSectionId : jsstring) (textarea : option Textarea)
    (id : jsstring) (now : N) (dataUrl altText : jsstring)
    (prev : option ReportData) : option ReportData :=
  match reportData, activeSectionId with
  | None, _ | _, [] => prev
  | Some reportData, _ =>
      let withAttachment :=
        match prev with
        | Some prev =>
            Some {| templateId := templateId prev;
                    lastModified := lastModified prev;
                    values := values prev;
                    attachments := <[id := dataUrl]> (attachments prev);
                    history := history prev |}
        | None => None
        end in
      let tag :=
        [Ch.newline] ++ str "![" ++ altText ++ str "](attachment:" ++ id
          ++ str ")" ++ [Ch.newline] in
      match textarea with
      | Some textarea =>
          let text := textarea_value textarea in
          let newText :=
            take (selectionStart textarea) text ++ tag
              ++ drop (selectionEnd textarea) text in
          handleInputChange activeSectionId newText now withAttachment
      | None =>
          handleInputChange activeSectionId
            (orElse (values reportData !! activeSectionId) [] ++ tag)
            now withAttachment
      end
  end.

(** In the running application a handler is called from the render that
    shows the current value of the cell, so both arguments are that value. *)
Definition saveVersion (clock : N * N) (state : option ReportData)
  : option ReportData :=
  handleSaveVersion (fst clock) (snd clock) state state.

Definition saveVersions (clocks : list (N * N)) (state : option ReportData)
  : option ReportData :=
  fold_left (fun st clock => saveVersion clock st) clocks state.

Definition noInherited : Inherited := fun _ => None.

(** ** Export (services/exportService.ts)

    [exportToDocx] builds the string [docxContent] and hands it to the
    browser as a download; the string is what is modelled. *)

Definition joinLines (lines : list jsstring) : jsstring :=
  match lines with
  | [] => []
  | l :: rest => l ++ flat_map (fun x => Ch.newline :: x) rest
  end.

Definition cleanContent (content : jsstring) : jsstring :=
  replaceLit [Ch.dquote] (str "&quot;")
    (replaceLit [Ch.squote] (str "&apos;")
       (replaceLit [Ch.gt] (str "&gt;")
          (replaceLit [Ch.lt] (str "&lt;")
             (replaceLit [Ch.amp] (str "&amp;") content)))).

Definition lineBreakXml : jsstring :=
  str "</w:t></w:r><w:r><w:br/></w:r><w:r><w:t>".

Definition formattedContent (content : jsstring) : jsstring :=
  replaceLit [Ch.newline] lineBreakXml (cleanContent content).

Definition docxHeader (template : ReportTemplate) : jsstring :=
  joinLines
    [ strq "<?xml version='1.0' encoding='UTF-8' standalone='yes'?>";
      strq "<w:document xmlns:w='http://schemas.openxmlformats.org/wordprocessingml/2006/main'>";
      str "  <w:body>";
      str "    <w:p>";
      strq "      <w:pPr><w:pStyle w:val='Heading1'/><w:jc w:val='center'/></w:pPr>";
      str "      <w:r><w:t>" ++ title template ++ str "</w:t></w:r>";
      str "    </w:p>";
      str "    <w:p/>";
      str "    <w:p/>" ].

Definition docxSection (values : gmap jsstring jsstring)
    (sec : SectionDefinition) : jsstring :=
  let content := orElse (values !! section_id sec) [] in
  joinLines
    [ [];
      str "      <w:p>";
      strq "        <w:pPr><w:pStyle w:val='Heading2'/></w:pPr>";
      str "        <w:r><w:t>" ++ section_label sec ++ str "</w:t></w:r>";
      str "      </w:p>";
      str "      <w:p>";
      str "        <w:r><w:t>" ++ formattedContent content ++ str "</w:t></w:r>";
      str "      </w:p>";
      str "      <w:p/>" ].

Definition docxFooter : jsstring :=
  strq "<w:sectPr><w:pgSz w:w='11906' w:h='16838'/></w:sectPr></w:body></w:document>".

Definition docxContent (template : ReportTemplate) (data : ReportData) : jsstring :=
  fold_left (fun docx sec => docx ++ docxSection (values data) sec)
    (sections template) (docxHeader template)
  ++ docxFooter.

(** ** Vocabulary of the statements *)

(** The entity that stands for a character in the output of [escapeHtml]. *)
Definition htmlEntity (c : N) : jsstring :=
  if N.eqb c Ch.amp then str "&amp;"
  else if N.eqb c Ch.lt then str "&lt;"
  else if N.eqb c Ch.gt then str "&gt;"
  else if N.eqb c Ch.dquote then str "&quot;"
  else if N.eqb c Ch.squote then str "&#039;"
  else [c].

(** The same for [cleanContent] of the export. *)
Definition xmlEntity (c : N) : jsstring :=
  if N.eqb c Ch.amp then str "&amp;"
  else if N.eqb c Ch.lt then str "&lt;"
  else if N.eqb c Ch.gt then str "&gt;"
  else if N.eqb c Ch.dquote then str "&quot;"
  else if N.eqb c Ch.squote then str "&apos;"
  else [c].

Definition isSpecial (c : N) : bool :=
  N.eqb c Ch.amp || N.eqb c Ch.lt || N.eqb c Ch.gt || N.eqb c Ch.dquote
  || N.eqb c Ch.squote.

Ltac case_char c k :=
  destruct (N.eqb_spec c k) as [?Heq|?]; [subst c|].

Ltac case_special c :=
  case_char c Ch.amp; [|case_char c Ch.lt; [|case_char c Ch.gt;
    [|case_char c Ch.dquote; [|case_char c Ch.squote]]]].

Ltac no_eqb :=
  repeat match goal with
  | H : ?c <> ?k |- context [N.eqb ?c ?k] =>
      rewrite (proj2 (N.eqb_neq c k) H)
  end.

(** A continuation that can only succeed on a text starting with [h]. *)
Definition headed {R : Type} (h : N) (k : jsstring -> option R) : Prop :=
  forall s, is_Some (k s) -> head s = Some h.

Definition entities : list jsstring :=
  [str "&amp;"; str "&lt;"; str "&gt;"; str "&quot;"; str "&#039;"].

(** What plain text becomes, character by character. *)
Definition plainChar (c : N) : jsstring :=
  if N.eqb c Ch.newline then str "<br/>" else htmlEntity c.

(** The versions built by the successive calls, oldest first. *)
Fixpoint savedVersions (clocks : list (N * N)) (state : option ReportData)
  : list ReportVersion :=
  match clocks, state with
  | clock :: rest, Some reportData =>
      newVersion (fst clock) (snd clock) reportData
        :: savedVersions rest (saveVersion clock state)
  | _, _ => []
  end.

(** A document and a clock for the examples. *)
Definition exampleDoc : ReportData :=
  {| templateId := str "pfe";
     lastModified := 1000;
     values := {[ str "title" := str "Report" ]};
     attachments := {[ str "k1" := str "data:,P" ]};
     history := [] |}.

Definition exampleClocks : list (N * N) :=
  map (fun n => (N.of_nat n, N.of_nat n)) (seq 2000 31).

Definition exampleVersion : ReportVersion :=
  {| version_id := str "1500";
     version_timestamp := 1500;
     version_name := Some (str "Version 1");
     version_values := {[ str "title" := str "Draft" ]};
     version_attachments := None |}.

Definition exampleDocWithHistory : ReportData :=
  {| templateId := str "pfe";
     lastModified := 1600;
     values := {[ str "title" := str "Report" ]};
     attachments := {[ str "k1" := str "data:,P" ]};
     history := [exampleVersion] |}.

Definition exampleSnapshot : ReportVersion :=
  {| version_id := str "1550";
     version_timestamp := 1550;
     version_name := Some (str "Version 2");
     version_values := {[ str "title" := str "Draft" ]};
     version_attachments := Some {[ str "k0" := str "data:,Z" ]} |}.

Definition exampleDocWithSnapshot : ReportData :=
  {| templateId := str "pfe";
     lastModified := 1600;
     values := {[ str "title" := str "Report" ]};
     attachments := {[ str "k1" := str "data:,P" ]};
     history := [exampleSnapshot; exampleVersion] |}.

Definition exampleStored : StoredRecord :=
  {| stored_templateId := str "pfe";
     stored_lastModified := 900;
     stored_values := {[ str "title" := str "Old" ]};
     stored_attachments := None;
     stored_history := None |}.

(** The character-wise reading of [formattedContent]. *)
Definition exportChar (c : N) : jsstring :=
  if N.eqb c Ch.newline then lineBreakXml else xmlEntity c.

(** The fixed text of a section block before the label, between the label
    and the content, and after the content. *)
Definition docxSectionBefore : jsstring :=
  joinLines
    [ [];
      str "      <w:p>";
      strq "        <w:pPr><w:pStyle w:val='Heading2'/></w:pPr>";
      str "        <w:r><w:t>" ].

Definition docxSectionMiddle : jsstring :=
  joinLines
    [ str "</w:t></w:r>";
      str "      </w:p>";
      str "      <w:p>";
      str "        <w:r><w:t>" ].

Definition docxSectionAfter : jsstring :=
  joinLines [ str "</w:t></w:r>"; str "      </w:p>"; str "      <w:p/>" ].

Definition examplePlainText : jsstring :=
  str "if a<b & 'c' then" ++ [Ch.newline] ++ strq "say 'x' !".


(** No two [$] in a row. *)
Definition noDoubleDollar (s : jsstring) : Prop :=
  matchesAnywhere (stripPrefix (str "$$")) s = false.

(** A formula as the math pattern matches it: [$$body$$] whose closing [$$]
    is the first one after the opening, or [$body$] without [$] inside. *)
Definition isFormula (whole : jsstring) : Prop :=
  (exists body,
      whole = str "$$" ++ body ++ str "$$"
      /\ noDoubleDollar (body ++ [Ch.dollar]))
  \/ (exists body, whole = str "$" ++ body ++ str "$" /\ dollars body = 0%nat).

(** The result of [split]: text without [$] and formulas in turn, and a last
    piece of text with at most one [$]. *)
Inductive Segmented : list jsstring -> Prop :=
| seg_last (t : jsstring) : (dollars t <= 1)%nat -> Segmented [t]
| seg_formula (t whole : jsstring) (parts : list jsstring) :
    dollars t = 0%nat -> isFormula whole -> Segmented parts ->
    Segmented (t :: whole :: parts).

(** [Rewrites pat rep s o]: [o] is [s] with some occurrences of [pat]
    replaced by [rep]. *)
Inductive Rewrites (pat rep : jsstring) : jsstring -> jsstring -> Prop :=
| rw_nil : Rewrites pat rep [] []
| rw_keep (c : N) (s o : jsstring) :
    Rewrites pat rep s o -> Rewrites pat rep (c :: s) (c :: o)
| rw_subst (s o : jsstring) :
    Rewrites pat rep s o -> Rewrites pat rep (pat ++ s) (rep ++ o).

(** A character that no pass treats specially inside an image reference. *)
Definition simpleChar (c : N) : bool :=
  negb (isSpecial c) && dot c && negb (N.eqb c Ch.dollar)
  && negb (N.eqb c Ch.rbracket) && negb (N.eqb c Ch.rparen).

(** ** Vocabulary of the further properties *)

(** What a formula body becomes on its way to the math renderer: [<] and
    [>] come back, [&] and the quotes stay entities. *)
Definition mathChar (c : N) : jsstring :=
  if N.eqb c Ch.lt then [Ch.lt]
  else if N.eqb c Ch.gt then [Ch.gt]
  else htmlEntity c.

Definition exampleFormulaBody : jsstring := str "a<b & c>d".

(** The text after a newline, put back behind a remainder. *)
Definition afterLine (w : jsstring) (r : jsstring) : jsstring :=
  r ++ Ch.newline :: w.

(** The reference tag and the placeholder of pass 2. *)
Definition referenceTag (altText id : jsstring) : jsstring :=
  str "![" ++ altText ++ str "](attachment:" ++ id ++ str ")".

Definition placeholderFor (src alt : jsstring) : jsstring :=
  str "$$IMG_START$$" ++ src ++ str "$$IMG_SEP$$" ++ alt ++ str "$$IMG_END$$".

Definition brokenMarker (alt : jsstring) : jsstring :=
  str "[Broken Image: " ++ alt ++ str "]".

(** The text before and after the point where [insertAttachment] puts the
    tag: around the selection of the textarea, or after the whole value of
    the section when the textarea is not found. *)
Definition textBefore (reportData : ReportData) (activeSectionId : jsstring)
    (textarea : option Textarea) : jsstring :=
  match textarea with
  | Some ta => take (selectionStart ta) (textarea_value ta)
  | None => orElse (values reportData !! activeSectionId) []
  end.

Definition textAfter (textarea : option Textarea) : jsstring :=
  match textarea with
  | Some ta => drop (selectionEnd ta) (textarea_value ta)
  | None => []
  end.

(** The two ways the user changes the text of a document. *)
Inductive Edit : Type :=
| EditSection (id value : jsstring) (now : N)
| EditInsert (activeSectionId : jsstring) (textarea : option Textarea)
    (id : jsstring) (now : N) (dataUrl altText : jsstring).

(** An edit, made from the render that shows the current document. *)
Definition applyEdit (state : option ReportData) (e : Edit)
  : option ReportData :=
  match e with
  | EditSection id value now => handleInputChange id value now state
  | EditInsert sec textarea id now dataUrl altText =>
      insertAttachment state sec textarea id now dataUrl altText state
  end.

Definition applyEdits (edits : list Edit) (state : option ReportData)
  : option ReportData :=
  fold_left applyEdit edits state.

Definition exampleFullDoc : ReportData :=
  {| templateId := str "pfe";
     lastModified := 1600;
     values := {[ str "title" := str "Report" ]};
     attachments := ∅;
     history := repeat exampleVersion 30 |}.

(** What is read back from a record written with
    [JSON.stringify(reportData)]: every field of the document is there. *)
Definition stored (reportData : ReportData) : StoredRecord :=
  {| stored_templateId := templateId reportData;
     stored_lastModified := lastModified reportData;
     stored_values := values reportData;
     stored_attachments := Some (attachments reportData);
     stored_history := Some (history reportData) |}.

(** The record that [handleSaveVersion] writes from its timer. *)
Definition writtenBySave (now1 now2 : N) (reportData : option ReportData)
  : option StoredRecord :=
  match reportData with
  | Some reportData =>
      Some {| stored_templateId := templateId reportData;
              stored_lastModified := lastModified reportData;
              stored_values := values reportData;
              stored_attachments := Some (attachments reportData);
              stored_history :=
                Some (take 30 (newVersion now1 now2 reportData
                               :: history reportData)) |}
  | None => None
  end.

(** [sec.id]-wise agreement of two value maps on the sections of a
    template. *)
Definition agreeOn (sections : list SectionDefinition)
    (v1 v2 : gmap jsstring jsstring) : Prop :=
  Forall (fun sec => orElse (v1 !! section_id sec) []
                     = orElse (v2 !! section_id sec) []) sections.

Definition exampleTemplate : ReportTemplate :=
  {| template_id := str "research";
     title := str "Article de Recherche";
     sections :=
       [ {| section_id := str "title"; section_label := str "Title" |};
         {| section_id := str "abstract"; section_label := str "Abstract" |} ] |}.

Definition exampleDocEmptyAbstract : ReportData :=
  {| templateId := str "research";
     lastModified := 5;
     values := {[ str "title" := str "Report" ]} ∪ {[ str "abstract" := [] ]}
               ∪ {[ str "notes" := str "private" ]};
     attachments := ∅;
     history := [] |}.

(** The fixed text of the header before and after the title. *)
Definition docxHeaderBefore : jsstring :=
  joinLines
    [ strq "<?xml version='1.0' encoding='UTF-8' standalone='yes'?>";
      strq "<w:document xmlns:w='http://schemas.openxmlformats.org/wordprocessingml/2006/main'>";
      str "  <w:body>";
      str "    <w:p>";
      strq "      <w:pPr><w:pStyle w:val='Heading1'/><w:jc w:val='center'/></w:pPr>";
      str "      <w:r><w:t>" ].

Definition docxHeaderAfter : jsstring :=
  joinLines
    [ str "</w:t></w:r>"; str "    </w:p>"; str "    <w:p/>"; str "    <w:p/>" ].

(** ** The name of the exported file (services/exportService.ts) *)

(** The class [[a-z0-9]] under the [i] flag: the letters and digits of
    ASCII (without the [u] flag no other character is folded onto them). *)
Definition isAlnum (c : N) : bool :=
  ((48 <=? c) && (c <=? 57)) || ((65 <=? c) && (c <=? 90))
  || ((97 <=? c) && (c <=? 122)).

(** [/[^a-z0-9]/gi]. *)
Definition notAlnumRe (s : jsstring) : option (unit * jsstring) :=
  match s with
  | c :: rest => if isAlnum c then None else Some (tt, rest)
  | [] => None
  end.

(** [link.download] of [exportToDocx]. *)
Definition downloadName (template : ReportTemplate) : jsstring :=
  replaceAll notAlnumRe (fun _ => str "_") (title template)
  ++ str "_Report.doc".

Definition underscore : N := 95.

Definition sanitizeChar (c : N) : N := if isAlnum c then c else underscore.

(** ** AI assistance (services/geminiService.ts and [handleAiGenerate]) *)

(** [a || b] for strings: a missing value and the empty string are falsy. *)
Definition orString (a : option jsstring) (b : jsstring) : jsstring :=
  match a with
  | Some (c :: s) => c :: s
  | _ => b
  end.

Record GoogleGenAI := {
  apiKey : jsstring
}.

(** The argument of [client.models.generateContent], without the constant
    [model] and [temperature]. *)
Record GenerateContentRequest := {
  contents : jsstring;
  systemInstruction : jsstring
}.

(** How the awaited call ends inside the [try] block: with a response, whose
    [text] may be missing, or with an exception. *)
Inductive GenerateContentResult :=
  | Responded (text : option jsstring)
  | Failed.

(** How a promise of a string settles; a rejection carries the message of
    the [Error]. *)
Inductive Settled :=
  | Fulfilled (value : jsstring)
  | Rejected (message : jsstring).

(** [aiClient] is the module variable and [API_KEY] the value of
    [process.env.API_KEY]; the result is the new value of the variable, which
    is also what the function returns. *)
Definition getClient (aiClient : option GoogleGenAI)
    (API_KEY : option jsstring) : option GoogleGenAI :=
  match aiClient with
  | Some client => Some client
  | None =>
      match API_KEY with
      | Some (c :: key) => Some {| apiKey := c :: key |}
      | _ => None
      end
  end.

(** [respond] is the behaviour of the service at this call.  The result is
    the new value of [aiClient] and the way the returned promise settles. *)
Definition generateSectionContent (aiClient : option GoogleGenAI)
    (API_KEY : option jsstring)
    (respond : GoogleGenAI -> GenerateContentRequest -> GenerateContentResult)
    (context sectionLabel userPrompt : jsstring)
  : option GoogleGenAI * Settled :=
  let client := getClient aiClient API_KEY in
  (client,
   match client with
   | None => Rejected (str "Gemini API Key is missing.")
   | Some client =>
       let systemInstruction :=
         str "You are an expert academic and technical writer. "
         ++ [Ch.newline]
         ++ strq "  You are assisting a student or professional in writing a report section titled '"
         ++ sectionLabel ++ strq "'." ++ [Ch.newline]
         ++ str "  The report type context is: " ++ context ++ str "."
         ++ [Ch.newline]
         ++ str "  Return clean, well-structured text suitable for the report. Do not include markdown code blocks unless specifically asked for code." in
       match respond client {| contents := userPrompt;
                               systemInstruction := systemInstruction |} with
       | Responded text =>
           Fulfilled (orString text (str "No content generated."))
       | Failed =>
           Rejected (str "Failed to generate content. Please try again.")
       end
   end).

(** The state cells [handleAiGenerate] writes. *)
Record AppState := {
  app_reportData : option ReportData;
  isAiGenerating : bool;
  aiError : option jsstring
}.

(** [reportData] and [activeTemplate] are the values of the cells in the
    render that created the handler and [st] is the state when it is called;
    [aiPrompt] is the field of that name of [section].  [during] is what the
    other handlers do to the [reportData] cell while the request is pending
    (no other handler writes [isAiGenerating] or [aiError]), and [now] is the
    clock read by the nested [handleInputChange].  The result is the new
    value of [aiClient] and the state once the handler has finished. *)
Definition handleAiGenerate (reportData : option ReportData)
    (activeTemplate : option ReportTemplate) (section : SectionDefinition)
    (aiPrompt : option jsstring) (aiClient : option GoogleGenAI)
    (API_KEY : option jsstring)
    (respond : GoogleGenAI -> GenerateContentRequest -> GenerateContentResult)
    (during : option ReportData -> option ReportData) (now : N)
    (st : AppState) : option GoogleGenAI * AppState :=
  match reportData with
  | None => (aiClient, st)
  | Some reportData =>
      let context :=
        str "Report Title: "
        ++ orString (values reportData !! str "title") (str "Untitled")
        ++ str ". Section: " ++ section_label section ++ str "." in
      let prompt :=
        match aiPrompt with
        | Some (c :: p) =>
            (c :: p) ++ str " (Context: " ++ context ++ str ")"
        | _ =>
            strq "Write content for '" ++ section_label section
            ++ strq "' in context: " ++ context
        end in
      let '(aiClient', settled) :=
        generateSectionContent aiClient API_KEY respond
          (orString (title <$> activeTemplate) (str "Report"))
          (section_label section) prompt in
      let prev := during (app_reportData st) in
      (aiClient',
       match settled with
       | Fulfilled content =>
           let existing :=
             orElse (values reportData !! section_id section) [] in
           {| app_reportData :=
                handleInputChange (section_id section)
                  (existing
                   ++ match existing with
                      | [] => []
                      | _ => [Ch.newline; Ch.newline]
                      end
                   ++ content)
                  now prev;
              isAiGenerating := false;
              aiError := None |}
       | Rejected message =>
           {| app_reportData := prev;
              isAiGenerating := false;
              aiError := Some (orString (Some message) (str "AI Error")) |}
       end)
  end.

Definition exampleSection : SectionDefinition :=
  {| section_id := str "title"; section_label := str "Title" |}.

Definition exampleRespond (_ : GoogleGenAI) (_ : GenerateContentRequest)
  : GenerateContentResult :=
  Responded (Some (str "2024")).

Definition exampleState : AppState :=
  {| app_reportData := Some exampleDoc;
     isAiGenerating := false;
     aiError := None |}.

(** * Properties *)

(** ** Strings and replacement *)

Lemma stripPrefix_app (p s : jsstring) : stripPrefix p (p ++ s) = Some s.
Proof.
  induction p as [|a p IH]; simpl; [done|]. by rewrite N.eqb_refl.
Qed.

Lemma stripPrefix_Some (p s r : jsstring) :
  stripPrefix p s = Some r -> s = p ++ r.
Proof.
  revert s. induction p as [|a p IH]; intros s; simpl.
  - congruence.
  - destruct s as [|b s]; [done|].
    destruct (N.eqb_spec a b) as [->|]; [|done].
    intros H. by rewrite (IH _ H).
Qed.

Lemma stripPrefix_head (a : N) (p s r : jsstring) :
  stripPrefix (a :: p) s = Some r -> head s = Some a.
Proof. intros H. by rewrite (stripPrefix_Some _ _ _ H). Qed.

Lemma replaceAllFrom_single {C : Type} (re : jsstring -> option (C * jsstring))
    (f : C -> jsstring) (g : N -> jsstring) (s : jsstring) :
  (forall c s', re (c :: s') = None /\ g c = [c]
                \/ exists cap, re (c :: s') = Some (cap, s') /\ g c = f cap) ->
  replaceAllFrom re f 0 s = flat_map g s.
Proof.
  intros Hre. induction s as [|c s IH]; [done|].
  cbn [replaceAllFrom flat_map].
  destruct (Hre c s) as [[-> ->]|(cap & -> & ->)].
  - by rewrite IH.
  - replace (length (c :: s) - length s - 1)%nat with 0%nat by (simpl; lia).
    by rewrite IH.
Qed.

(** Replacing a one-character pattern is a character-wise substitution. *)
Lemma replaceLit_single (c : N) (rep s : jsstring) :
  replaceLit [c] rep s = flat_map (fun x => if N.eqb x c then rep else [x]) s.
Proof.
  apply replaceAllFrom_single. intros x s'.
  unfold literal. cbn [stripPrefix]. rewrite (N.eqb_sym x c).
  destruct (N.eqb c x); [right; by exists tt | by left].
Qed.

Lemma flat_map_flat_map (f g : N -> jsstring) (s : jsstring) :
  flat_map g (flat_map f s) = flat_map (fun x => flat_map g (f x)) s.
Proof.
  induction s as [|c s IH]; [done|].
  cbn [flat_map]. by rewrite flat_map_app, IH.
Qed.

(** ** Pass 1 *)

(** The five sequential replacements of [escapeHtml] amount to one
    character-wise substitution: no entity contains a character that a
    later replacement looks for. *)
Lemma escapeHtml_flat_map (s : jsstring) : escapeHtml s = flat_map htmlEntity s.
Proof.
  unfold escapeHtml. rewrite !replaceLit_single, !flat_map_flat_map.
  apply flat_map_ext. intros c. unfold htmlEntity.
  case_special c; try reflexivity.
  no_eqb. cbn [flat_map app]. no_eqb. cbn [flat_map app]. no_eqb.
  cbn [flat_map app]. no_eqb. cbn [flat_map app]. no_eqb. reflexivity.
Qed.

Lemma cleanContent_flat_map (s : jsstring) : cleanContent s = flat_map xmlEntity s.
Proof.
  unfold cleanContent. rewrite !replaceLit_single, !flat_map_flat_map.
  apply flat_map_ext. intros c. unfold xmlEntity.
  case_special c; try reflexivity.
  no_eqb. cbn [flat_map app]. no_eqb. cbn [flat_map app]. no_eqb.
  cbn [flat_map app]. no_eqb. cbn [flat_map app]. no_eqb. reflexivity.
Qed.

(** ** Matching *)

Lemma lazyStar_is_Some_nil {R : Type} (cls : N -> bool)
    (k : jsstring -> option R) :
  is_Some (lazyStar cls k []) <-> is_Some (k []).
Proof.
  cbn [lazyStar]. destruct (k []); split; intros [x Hx]; eauto; done.
Qed.

Lemma lazyStar_is_Some_cons {R : Type} (cls : N -> bool)
    (k : jsstring -> option R) (c : N) (s : jsstring) :
  is_Some (lazyStar cls k (c :: s))
  <-> is_Some (k (c :: s)) \/ (cls c = true /\ is_Some (lazyStar cls k s)).
Proof.
  cbn [lazyStar]. destruct (k (c :: s)) as [r|].
  - split; eauto.
  - destruct (cls c).
    + destruct (lazyStar cls k s) as [[cap r]|]; split.
      * eauto.
      * eauto.
      * intros [? ?]; done.
      * intros [[? ?]|[_ [? ?]]]; done.
    + split; [intros [? ?]; done | intros [[? ?]|[? _]]; done].
Qed.

(** What a successful lazy match consumed. *)
Lemma lazyStar_Some {R : Type} (cls : N -> bool) (k : jsstring -> option R)
    (s cap : jsstring) (r : R) :
  lazyStar cls k s = Some (cap, r) ->
  exists s', s = cap ++ s' /\ k s' = Some r /\ Forall (fun c => cls c = true) cap.
Proof.
  revert cap. induction s as [|c s IH]; intros cap; cbn [lazyStar].
  - destruct (k []) as [r'|] eqn:Hk; [|done].
    intros [= <- <-]. by exists [].
  - destruct (k (c :: s)) as [r'|] eqn:Hk.
    + intros [= <- <-]. by exists (c :: s).
    + destruct (cls c) eqn:Hc; [|done].
      destruct (lazyStar cls k s) as [[cap' r']|]; [|done].
      intros [= <- <-]. destruct (IH cap' eq_refl) as (s' & -> & Hk' & Hall).
      exists s'. split; [done|]. split; [done|]. by constructor.
Qed.

Lemma headed_stripPrefix (h : N) (p : jsstring) : headed h (stripPrefix (h :: p)).
Proof. intros s [r Hr]. by eapply stripPrefix_head. Qed.

Lemma headed_bind {R : Type} (h : N) (p : jsstring)
    (k : jsstring -> option R) :
  headed h (fun s => r ← stripPrefix (h :: p) s; k r).
Proof.
  intros s [r Hr]. apply bind_Some in Hr as (r' & Hr' & _).
  by eapply stripPrefix_head.
Qed.

Lemma lazyStar_skip {R : Type} (k : jsstring -> option R) (h : N)
    (e s : jsstring) :
  headed h k ->
  Forall (fun x => dot x = true /\ x <> h) e ->
  is_Some (lazyStar dot k (e ++ s)) <-> is_Some (lazyStar dot k s).
Proof.
  intros Hk. induction 1 as [|x e [Hx Hxh] _ IH]; [done|].
  cbn [app]. rewrite lazyStar_is_Some_cons, IH. split.
  - intros [Hsome|[_ ?]]; [|done].
    apply Hk in Hsome. cbn in Hsome. congruence.
  - by right.
Qed.

Lemma matchesAnywhere_false_cons {C : Type} (re : jsstring -> option C)
    (c : N) (s : jsstring) :
  matchesAnywhere re (c :: s) = false
  <-> re (c :: s) = None /\ matchesAnywhere re s = false.
Proof.
  cbn [matchesAnywhere]. destruct (re (c :: s)); split; try done.
  - intros [? _]; done.
  - by intros [_ ?].
Qed.

(** Where the pattern matches nowhere, [replace] and [split] leave the text
    as it is. *)
Lemma replaceAll_no_match {C : Type} (re : jsstring -> option (C * jsstring))
    (f : C -> jsstring) (s : jsstring) :
  matchesAnywhere re s = false -> replaceAll re f s = s.
Proof.
  unfold replaceAll. induction s as [|c s IH]; [done|].
  rewrite matchesAnywhere_false_cons. intros [Hre Hs].
  cbn [replaceAllFrom]. rewrite Hre. by rewrite IH.
Qed.

Lemma split_no_match (re : jsstring -> option (jsstring * jsstring))
    (s : jsstring) :
  matchesAnywhere re s = false -> split re s = [s].
Proof.
  unfold split. induction s as [|c s IH]; [done|].
  rewrite matchesAnywhere_false_cons. intros [Hre Hs].
  cbn [splitFrom]. rewrite Hre. by rewrite IH.
Qed.

(** ** Counting [$] *)

Lemma dollars_app (s t : jsstring) : dollars (s ++ t) = (dollars s + dollars t)%nat.
Proof. apply count_occ_app. Qed.

Lemma dollars_cons_le (c : N) (s : jsstring) : (dollars s <= dollars (c :: s))%nat.
Proof. unfold dollars. cbn [count_occ]. destruct (N.eq_dec c Ch.dollar); lia. Qed.

Lemma dollars_flat_map (g : N -> jsstring) (s : jsstring) :
  (forall c, dollars (g c) = dollars [c]) ->
  dollars (flat_map g s) = dollars s.
Proof.
  intros Hg. induction s as [|c s IH]; [done|].
  cbn [flat_map]. rewrite dollars_app, Hg, IH.
  change (c :: s) with ([c] ++ s). by rewrite dollars_app.
Qed.

Lemma dollars_htmlEntity (c : N) : dollars (htmlEntity c) = dollars [c].
Proof. unfold htmlEntity. case_special c; try reflexivity. Qed.

Lemma dollars_escapeHtml (s : jsstring) : dollars (escapeHtml s) = dollars s.
Proof.
  rewrite escapeHtml_flat_map. apply dollars_flat_map, dollars_htmlEntity.
Qed.

Lemma dollars_lineBreaks (s : jsstring) : dollars (lineBreaks s) = dollars s.
Proof.
  unfold lineBreaks. rewrite replaceLit_single. apply dollars_flat_map. intros c.
  case_char c Ch.newline; [reflexivity | by no_eqb].
Qed.

Lemma mathRe_dollars (s : jsstring) : is_Some (mathRe s) -> (2 <= dollars s)%nat.
Proof.
  unfold mathRe. intros [m Hm].
  destruct (stripPrefix (str "$$") s ≫= _) as [[body rest]|] eqn:Hblock.
  - apply bind_Some in Hblock as (r & Hr & _).
    apply stripPrefix_Some in Hr as ->.
    rewrite dollars_app. change (dollars (str "$$")) with 2%nat. lia.
  - apply bind_Some in Hm as ([body rest] & Hinline & _).
    apply bind_Some in Hinline as (r & Hr & Hlazy).
    apply stripPrefix_Some in Hr as ->.
    apply lazyStar_Some in Hlazy as (s' & -> & Hs' & _).
    apply stripPrefix_Some in Hs' as ->.
    rewrite !dollars_app. change (dollars (str "$")) with 1%nat. lia.
Qed.

Lemma placeholderRe_dollars (s : jsstring) :
  is_Some (placeholderRe s) -> (2 <= dollars s)%nat.
Proof.
  unfold placeholderRe. intros [m Hm].
  apply bind_Some in Hm as (r & Hr & _).
  apply stripPrefix_Some in Hr as ->.
  rewrite dollars_app. change (dollars (str "$$IMG_START$$")) with 4%nat. lia.
Qed.

Lemma matchesAnywhere_dollars {C : Type} (re : jsstring -> option C)
    (s : jsstring) :
  (forall t, is_Some (re t) -> (2 <= dollars t)%nat) ->
  (dollars s <= 1)%nat -> matchesAnywhere re s = false.
Proof.
  intros Hre. induction s as [|c s IH]; [done|]. intros Hle.
  apply matchesAnywhere_false_cons. split.
  - destruct (re (c :: s)) eqn:Hm; [|done].
    assert (2 <= dollars (c :: s))%nat by (apply Hre; by rewrite Hm). lia.
  - apply IH. pose proof (dollars_cons_le c s). lia.
Qed.

(** ** Escaping and the image pattern

    [escapeHtml] neither creates nor destroys an image reference: the
    characters of the pattern are not escaped, and no entity contains one of
    them at a place where it matters. *)

Lemma htmlEntity_special (P : jsstring -> Prop) (c : N) :
  isSpecial c = true -> Forall P entities -> P (htmlEntity c).
Proof.
  unfold isSpecial, htmlEntity, entities. intros Hc HP.
  repeat match goal with
         | H : Forall _ (_ :: _) |- _ => apply Forall_cons in H as [? H]
         end.
  case_special c; try assumption. discriminate Hc.
Qed.

Lemma htmlEntity_plain (c : N) : isSpecial c = false -> htmlEntity c = [c].
Proof.
  unfold isSpecial, htmlEntity. case_special c; try discriminate. done.
Qed.

Lemma stripPrefix_escape (p u r : jsstring) :
  Forall (fun a => isSpecial a = false) p ->
  stripPrefix p (flat_map htmlEntity u) = Some r ->
  exists u', stripPrefix p u = Some u' /\ r = flat_map htmlEntity u'.
Proof.
  intros Hp. revert u. induction Hp as [|a p Ha _ IH]; intros u.
  - cbn [stripPrefix]. intros [= <-]. by exists u.
  - destruct u as [|c u]; [done|]. cbn [flat_map].
    destruct (isSpecial c) eqn:Hc.
    + assert (exists t, htmlEntity c = Ch.amp :: t) as [t ->].
      { apply htmlEntity_special; [done|]. repeat constructor; by eexists. }
      cbn [app stripPrefix].
      assert (N.eqb a Ch.amp = false) as ->; [|done].
      unfold isSpecial in Ha. by destruct (N.eqb a Ch.amp).
    + rewrite (htmlEntity_plain c Hc). cbn [app stripPrefix].
      destruct (N.eqb a c); [|done]. apply IH.
Qed.

Lemma lazyStar_escape {R R' : Type} (k' : jsstring -> option R')
    (k : jsstring -> option R) (h : N) (u : jsstring) :
  headed h k' ->
  Forall (Forall (fun x => dot x = true /\ x <> h)) entities ->
  (forall v, is_Some (k' (flat_map htmlEntity v)) -> is_Some (k v)) ->
  is_Some (lazyStar dot k' (flat_map htmlEntity u)) ->
  is_Some (lazyStar dot k u).
Proof.
  intros Hhead Hent Hk. induction u as [|c u IH].
  - cbn [flat_map]. rewrite !lazyStar_is_Some_nil. apply (Hk []).
  - cbn [flat_map]. destruct (isSpecial c) eqn:Hc.
    + rewrite lazyStar_skip; [|done|by apply htmlEntity_special].
      intros Hrec. apply lazyStar_is_Some_cons. right. split; [|by apply IH].
      unfold isSpecial in Hc. unfold dot, isLineTerminator.
      case_special c; try reflexivity. discriminate Hc.
    + rewrite (htmlEntity_plain c Hc). cbn [app].
      rewrite !lazyStar_is_Some_cons. intros [Hhere|[Hdot Hrec]].
      * left. apply Hk. cbn [flat_map]. by rewrite (htmlEntity_plain c Hc).
      * right. split; [done|by apply IH].
Qed.

Lemma afterAlt_escape (v : jsstring) :
  is_Some (afterAlt (flat_map htmlEntity v)) -> is_Some (afterAlt v).
Proof.
  unfold afterAlt. intros [m Hm]. apply bind_Some in Hm as (r & Hr & Hlazy).
  apply stripPrefix_escape in Hr as (v1 & -> & ->); [|by repeat constructor].
  cbn [mbind option_bind].
  apply (lazyStar_escape (stripPrefix (str ")")) _ Ch.rparen v1); [| | |by eexists].
  - apply headed_stripPrefix.
  - repeat constructor; done.
  - intros w [r Hr]. apply stripPrefix_escape in Hr as (w1 & -> & _); [done|].
    by repeat constructor.
Qed.

Lemma imageRe_escape (u : jsstring) :
  is_Some (imageRe (flat_map htmlEntity u)) -> is_Some (imageRe u).
Proof.
  unfold imageRe. intros [m Hm]. apply bind_Some in Hm as (r & Hr & Hrest).
  apply bind_Some in Hrest as (cap & Hlazy & _).
  apply stripPrefix_escape in Hr as (u1 & -> & ->); [|by repeat constructor].
  cbn [mbind option_bind].
  destruct (lazyStar_escape afterAlt afterAlt Ch.rbracket u1) as [[alt [id rest]] ->].
  - apply (headed_bind Ch.rbracket).
  - repeat constructor; done.
  - apply afterAlt_escape.
  - by eexists.
  - by eexists.
Qed.

Lemma headed_imageRe : headed Ch.bang imageRe.
Proof. apply (headed_bind Ch.bang). Qed.

Lemma matchesAnywhere_skip {C : Type} (re : jsstring -> option C) (h : N)
    (e s : jsstring) :
  headed h re -> Forall (fun x => x <> h) e ->
  matchesAnywhere re (e ++ s) = matchesAnywhere re s.
Proof.
  intros Hhead. induction 1 as [|x e Hx _ IH]; [done|].
  cbn [app matchesAnywhere]. destruct (re (x :: e ++ s)) eqn:Hm; [|done].
  assert (head (x :: e ++ s) = Some h) as [= ?]; [|done].
  apply Hhead. by rewrite Hm.
Qed.

(** A text without image reference has none after escaping. *)
Lemma matchesAnywhere_imageRe_escape (u : jsstring) :
  matchesAnywhere imageRe u = false ->
  matchesAnywhere imageRe (escapeHtml u) = false.
Proof.
  rewrite escapeHtml_flat_map. induction u as [|c u IH]; [done|].
  rewrite matchesAnywhere_false_cons. intros [Hhere Hrest].
  cbn [flat_map]. destruct (isSpecial c) eqn:Hc.
  - rewrite (matchesAnywhere_skip imageRe Ch.bang); [by apply IH|apply headed_imageRe|].
    apply htmlEntity_special; [done|]. repeat constructor; done.
  - rewrite (htmlEntity_plain c Hc). cbn [app].
    apply matchesAnywhere_false_cons. split; [|by apply IH].
    destruct (imageRe (c :: flat_map htmlEntity u)) eqn:Hm; [|done].
    destruct (imageRe_escape (c :: u)) as [m Hm'].
    + cbn [flat_map]. rewrite (htmlEntity_plain c Hc). cbn [app]. by rewrite Hm.
    + congruence.
Qed.

(** ** Text that is rendered literally *)

Lemma startsWith_true (s p : jsstring) :
  startsWith s p = true -> exists r, s = p ++ r.
Proof.
  unfold startsWith. destruct (stripPrefix p s) as [r|] eqn:Hr; [|done].
  intros _. exists r. by apply stripPrefix_Some.
Qed.

Lemma endsWith_true (s p : jsstring) :
  endsWith s p = true -> exists r, s = r ++ p.
Proof.
  unfold endsWith. intros H. apply startsWith_true in H as [r Hr].
  exists (rev r). apply (f_equal (@rev N)) in Hr.
  by rewrite rev_involutive, rev_app_distr, rev_involutive in Hr.
Qed.

(** The only text with at most one [$] that starts and ends with [$]. *)
Lemma lone_dollar (s : jsstring) :
  (dollars s <= 1)%nat ->
  startsWith s (str "$") = true -> endsWith s (str "$") = true ->
  s = [Ch.dollar].
Proof.
  intros Hle Hs He.
  apply startsWith_true in Hs as [r ->]. apply endsWith_true in He as [r' He].
  change (str "$") with [Ch.dollar] in *.
  destruct r' as [|c r']; [by injection He as ->|].
  injection He as <- ->. revert Hle.
  rewrite !dollars_app. change (dollars [Ch.dollar]) with 1%nat. lia.
Qed.

Lemma renderPart_literal (katex : Katex) (part : jsstring) :
  (dollars part <= 1)%nat -> part <> [Ch.dollar] ->
  renderPart katex part = lineBreaks part.
Proof.
  intros Hle Hne. unfold renderPart.
  destruct (startsWith part (str "$$")) eqn:Hblock.
  { apply startsWith_true in Hblock as [r ->]. revert Hle.
    rewrite dollars_app. change (dollars (str "$$")) with 2%nat. lia. }
  cbn [andb].
  destruct (startsWith part (str "$")) eqn:Hs; [|done].
  destruct (endsWith part (str "$")) eqn:He; [|done].
  by destruct Hne; apply lone_dollar.
Qed.

Lemma length_escapeHtml (s : jsstring) : (length s <= length (escapeHtml s))%nat.
Proof.
  rewrite escapeHtml_flat_map. induction s as [|c s IH]; [done|].
  cbn [flat_map]. rewrite length_app. cbn [length].
  assert (1 <= length (htmlEntity c))%nat; [|lia].
  destruct (isSpecial c) eqn:Hc.
  - apply htmlEntity_special; [done|]. repeat constructor; cbn; lia.
  - by rewrite htmlEntity_plain.
Qed.

Lemma escapeHtml_lone_dollar (s : jsstring) :
  escapeHtml s = [Ch.dollar] -> s = [Ch.dollar].
Proof.
  intros H. pose proof (length_escapeHtml s) as Hlen.
  pose proof (dollars_escapeHtml s) as Hd. rewrite H in Hlen, Hd.
  destruct s as [|c [|c' s]]; cbn in Hlen; [done| |lia].
  unfold dollars in Hd. cbn in Hd.
  by destruct (N.eq_dec c Ch.dollar) as [->|].
Qed.

(** A text with no image reference and at most one [$], other than the text
    [$] itself, goes through the four passes as plain text. *)
Lemma render_literal (katex : Katex) (inherited : Inherited) (text : jsstring)
    (attachments : gmap jsstring jsstring) :
  matchesAnywhere imageRe text = false ->
  (dollars text <= 1)%nat ->
  text <> [Ch.dollar] ->
  render katex inherited text attachments = lineBreaks (escapeHtml text).
Proof.
  intros Himg Hle Hne. unfold render, pass1, pass2, pass3, pass4.
  rewrite (replaceAll_no_match imageRe)
    by by apply matchesAnywhere_imageRe_escape.
  rewrite split_no_match
    by (apply matchesAnywhere_dollars;
        [apply mathRe_dollars | by rewrite dollars_escapeHtml]).
  cbn [map concat]. rewrite app_nil_r.
  rewrite renderPart_literal.
  - apply replaceAll_no_match, matchesAnywhere_dollars;
      [apply placeholderRe_dollars|].
    by rewrite dollars_lineBreaks, dollars_escapeHtml.
  - by rewrite dollars_escapeHtml.
  - intros H. by apply Hne, escapeHtml_lone_dollar.
Qed.

Lemma lineBreaks_escapeHtml (text : jsstring) :
  lineBreaks (escapeHtml text) = flat_map plainChar text.
Proof.
  unfold lineBreaks. rewrite escapeHtml_flat_map, replaceLit_single, flat_map_flat_map.
  apply flat_map_ext. intros c. unfold plainChar, htmlEntity.
  case_char c Ch.newline; [reflexivity|].
  case_special c; try reflexivity.
  cbn [flat_map app]. by no_eqb.
Qed.

(** ** Version history *)


Lemma saveVersion_Some (clock : N * N) (rd : ReportData) :
  saveVersion clock (Some rd)
  = Some {| templateId := templateId rd;
            lastModified := lastModified rd;
            values := values rd;
            attachments := attachments rd;
            history := take 30 (newVersion (fst clock) (snd clock) rd :: history rd) |}.
Proof. reflexivity. Qed.





(** ** Restore *)

(** C5. Restoring a version of the history, once confirmed, replaces the
    section values by the values of the version and the attachment store by
    the store the version holds (the empty store for a version that holds
    none), and sets last-modified to the clock; the history (and so the
    version in it) and the template identifier stay as they were.
    Declining changes nothing. *)
Theorem restoreVersion_frame (rd : ReportData) (version : ReportVersion)
    (now : N) :
  In version (history rd) ->
  (exists rd',
      handleRestoreVersion true now version (Some rd) = Some rd'
      /\ values rd' = version_values version
      /\ (forall snapshot,
            version_attachments version = Some snapshot ->
            attachments rd' = snapshot)
      /\ (version_attachments version = None -> attachments rd' = ∅)
      /\ lastModified rd' = now
      /\ history rd' = history rd
      /\ templateId rd' = templateId rd
      /\ In version (history rd'))
  /\ handleRestoreVersion false now version (Some rd) = Some rd.
Proof.
  intros Hin. split; [|reflexivity].
  eexists. split; [reflexivity|].
  cbn [values attachments lastModified history templateId].
  split; [done|].
  split; [by intros snapshot ->|].
  split; [by intros ->|done].
Qed.

Lemma restoreVersion_frame_witness :
  In exampleSnapshot (history exampleDocWithSnapshot)
  /\ exists rd',
       handleRestoreVersion true 1700 exampleSnapshot
         (Some exampleDocWithSnapshot) = Some rd'
       /\ values rd' = {[ str "title" := str "Draft" ]}
       /\ attachments rd' = {[ str "k0" := str "data:,Z" ]}
       /\ lastModified rd' = 1700
       /\ history rd' = [exampleSnapshot; exampleVersion].
Proof.
  assert (In exampleSnapshot (history exampleDocWithSnapshot)) as Hin
    by (left; reflexivity).
  split; [exact Hin|].
  destruct (restoreVersion_frame exampleDocWithSnapshot exampleSnapshot 1700
              Hin)
    as [(rd' & Hrun & Hval & Hsome & _ & Hnow & Hhist & _) _].
  exists rd'. split; [exact Hrun|]. split; [exact Hval|].
  split; [exact (Hsome _ eq_refl)|]. split; [exact Hnow|exact Hhist].
Defined.

(** C10. A version stored without [attachments] restores to the empty
    attachment store. *)
Theorem restoreVersion_missing_attachments (rd : ReportData)
    (version : ReportVersion) (now : N) :
  version_attachments version = None ->
  exists rd',
    handleRestoreVersion true now version (Some rd) = Some rd'
    /\ attachments rd' = ∅.
Proof.
  intros Hnone. eexists. split; [reflexivity|]. cbn. by rewrite Hnone.
Qed.

Lemma restoreVersion_missing_attachments_witness :
  version_attachments exampleVersion = None
  /\ exists rd',
      handleRestoreVersion true 1700 exampleVersion (Some exampleDocWithHistory)
      = Some rd'
      /\ attachments rd' = ∅.
Proof.
  split; [reflexivity|].
  exact (restoreVersion_missing_attachments exampleDocWithHistory exampleVersion
           1700 eq_refl).
Defined.

(** ** Loading *)

(** C7. With a stored record of the selected template, a missing [history]
    loads as the empty list and a missing [attachments] as the empty map
    (what is present is taken over); with a stored record of another
    template, or none, values, attachments and history all start empty.  The
    auto-load effect defaults the same two fields. *)
Theorem load_defaults (key : jsstring) (now : N) (parsed : StoredRecord) :
  let loaded := handleTemplateSelect key now (Some parsed) in
  templateId loaded = key
  /\ lastModified loaded = now
  /\ (stored_templateId parsed = key ->
      values loaded = stored_values parsed
      /\ history loaded = orElse (stored_history parsed) []
      /\ attachments loaded = orElse (stored_attachments parsed) ∅
      /\ (stored_history parsed = None -> history loaded = [])
      /\ (stored_attachments parsed = None -> attachments loaded = ∅))
  /\ (stored_templateId parsed <> key ->
      values loaded = ∅ /\ attachments loaded = ∅ /\ history loaded = [])
  /\ (let fresh := handleTemplateSelect key now None in
      values fresh = ∅ /\ attachments fresh = ∅ /\ history fresh = [])
  /\ (exists normal,
        autoLoad (Some parsed) = Some normal
        /\ stored_history normal = Some (orElse (stored_history parsed) [])
        /\ stored_attachments normal
           = Some (orElse (stored_attachments parsed) ∅)).
Proof.
  cbn zeta. unfold handleTemplateSelect.
  destruct (decide (stored_templateId parsed = key)) as [Heq|Hne]; cbn.
  - repeat split; try done.
    + intros ->. done.
    + intros ->. done.
    + eexists. repeat split.
  - repeat split; try done. eexists. repeat split.
Qed.

Lemma load_defaults_witness :
  let loaded := handleTemplateSelect (str "pfe") 1000 (Some exampleStored) in
  let other := handleTemplateSelect (str "internship") 1000 (Some exampleStored) in
  (values loaded = {[ str "title" := str "Old" ]}
   /\ history loaded = [] /\ attachments loaded = ∅)
  /\ (values other = ∅ /\ attachments other = ∅ /\ history other = []).
Proof.
  cbn zeta.
  destruct (load_defaults (str "pfe") 1000 exampleStored)
    as (_ & _ & Hsame & _).
  destruct (load_defaults (str "internship") 1000 exampleStored)
    as (_ & _ & _ & Hother & _).
  destruct (Hsame eq_refl) as (Hv & _ & _ & Hh & Ha).
  split.
  - split; [exact Hv|]. split; [exact (Hh eq_refl) | exact (Ha eq_refl)].
  - apply Hother. vm_compute. discriminate.
Defined.

(** ** Edits *)

(** C8, as the code has it.  An edit of a section and the insertion of an
    attachment leave the template identifier alone and set last-modified to
    the clock value read by the edit; the timestamp therefore grows strictly
    exactly when that clock value is larger than the previous timestamp. *)
Theorem mutation_sets_lastModified (rd : ReportData) (now : N) :
  (forall id value, exists rd',
      handleInputChange id value now (Some rd) = Some rd'
      /\ templateId rd' = templateId rd
      /\ lastModified rd' = now
      /\ values rd' = <[id := value]> (values rd)
      /\ (lastModified rd < lastModified rd' <-> lastModified rd < now))
  /\ (forall activeSectionId textarea id dataUrl altText,
        activeSectionId <> [] ->
        exists rd',
          insertAttachment (Some rd) activeSectionId textarea id now dataUrl
            altText (Some rd) = Some rd'
          /\ templateId rd' = templateId rd
          /\ lastModified rd' = now
          /\ attachments rd' = <[id := dataUrl]> (attachments rd)
          /\ (lastModified rd < lastModified rd' <-> lastModified rd < now)).
Proof.
  split.
  - intros id value. eexists. split; [reflexivity|]. cbn. done.
  - intros [|c sec] textarea id dataUrl altText Hsec; [done|].
    destruct textarea as [ta|]; eexists; (split; [reflexivity|]); cbn; done.
Qed.

Lemma mutation_sets_lastModified_witness :
  exists rd',
    insertAttachment (Some exampleDoc) (str "title") None (str "k2") 1001
      (str "data:,Q") (str "Diagram") (Some exampleDoc) = Some rd'
    /\ templateId rd' = templateId exampleDoc
    /\ lastModified rd' = 1001
    /\ attachments rd' = <[str "k2" := str "data:,Q"]> (attachments exampleDoc)
    /\ (lastModified exampleDoc < lastModified rd' <-> lastModified exampleDoc < 1001).
Proof.
  apply (proj2 (mutation_sets_lastModified exampleDoc 1001)). discriminate.
Defined.

(** C8, as stated, fails: an edit made while the clock still shows the
    document's last-modified value leaves the timestamp where it was. *)
Lemma lastModified_not_strict :
  exists rd',
    handleInputChange (str "title") (str "Report 2") 1000 (Some exampleDoc)
    = Some rd'
    /\ ~ (lastModified exampleDoc < lastModified rd').
Proof.
  eexists. split; [reflexivity|]. cbn. lia.
Qed.

(** ** Export *)

(** C9, as stated, fails: the export writes the apostrophe as [&apos;], the
    renderer as [&#039;]. *)
Lemma export_apostrophe_differs :
  cleanContent (str "'") = str "&apos;"
  /\ escapeHtml (str "'") = str "&#039;"
  /\ cleanContent (str "'") <> escapeHtml (str "'").
Proof. split; [reflexivity|]. split; [reflexivity|]. discriminate. Qed.

Lemma xmlEntity_htmlEntity (c : N) :
  xmlEntity c = if N.eqb c Ch.squote then str "&apos;" else htmlEntity c.
Proof. unfold xmlEntity, htmlEntity. case_special c; reflexivity. Qed.

Lemma htmlEntity_changes (c : N) : htmlEntity c <> [c] <-> isSpecial c = true.
Proof.
  unfold htmlEntity, isSpecial. case_special c; split; try done.
Qed.

Lemma xmlEntity_changes (c : N) : xmlEntity c <> [c] <-> isSpecial c = true.
Proof.
  unfold xmlEntity, isSpecial. case_special c; split; try done.
Qed.

Lemma flat_map_id (g : N -> jsstring) (s : jsstring) :
  Forall (fun c => g c = [c]) s -> flat_map g s = s.
Proof.
  induction 1 as [|c s Hc _ IH]; [done|]. cbn [flat_map]. by rewrite Hc, IH.
Qed.

Lemma flat_map_agree (f g : N -> jsstring) (s : jsstring) :
  (forall c, In c s -> f c = g c) -> flat_map f s = flat_map g s.
Proof.
  induction s as [|c s IH]; [done|]. intros H. cbn [flat_map].
  rewrite (H c) by by left. rewrite IH; [done|]. intros x Hx. apply H. by right.
Qed.

Lemma formattedContent_flat_map (s : jsstring) :
  formattedContent s = flat_map exportChar s.
Proof.
  unfold formattedContent.
  rewrite cleanContent_flat_map, replaceLit_single, flat_map_flat_map.
  apply flat_map_ext. intros c. unfold exportChar, xmlEntity.
  case_char c Ch.newline; [reflexivity|].
  case_special c; try reflexivity.
  cbn [flat_map app]. by no_eqb.
Qed.

Lemma docxContent_sections (template : ReportTemplate) (data : ReportData) :
  docxContent template data
  = docxHeader template
    ++ flat_map (docxSection (values data)) (sections template)
    ++ docxFooter.
Proof.
  unfold docxContent.
  assert (forall secs acc,
            fold_left (fun docx sec => docx ++ docxSection (values data) sec)
              secs acc
            = acc ++ flat_map (docxSection (values data)) secs) as Hfold.
  { induction secs as [|sec secs IH]; intros acc.
    - cbn. by rewrite app_nil_r.
    - cbn [fold_left flat_map]. by rewrite IH, <- app_assoc. }
  by rewrite Hfold, <- app_assoc.
Qed.

Lemma docxSection_written (values : gmap jsstring jsstring)
    (sec : SectionDefinition) :
  docxSection values sec
  = docxSectionBefore ++ section_label sec ++ docxSectionMiddle
    ++ formattedContent (orElse (values !! section_id sec) [])
    ++ docxSectionAfter.
Proof.
  unfold docxSection, docxSectionBefore, docxSectionMiddle, docxSectionAfter.
  cbn [joinLines flat_map app].
  repeat (progress (rewrite <- ?app_assoc; cbn [app])). reflexivity.
Qed.

(** C9, as the code has it.  The exported markup depends on the template
    and the section values only.  Its escape pass changes the same five
    characters as [escapeHtml] and writes the same entity for each of them
    except the apostrophe ([&apos;] for [&#039;]), so the two passes agree
    on every text without apostrophe.  Newlines become the line-break
    markup, and every other character, those of image references and math
    included, is copied as it is.  The exported markup is the header, then
    for each section of the template, between fixed markup, its label and
    its value so escaped, then the footer. *)
Theorem export_projection :
  (forall template d1 d2,
      values d1 = values d2 -> docxContent template d1 = docxContent template d2)
  /\ (forall s, cleanContent s = flat_map xmlEntity s)
  /\ (forall s, escapeHtml s = flat_map htmlEntity s)
  /\ (forall c, xmlEntity c <> [c] <-> htmlEntity c <> [c])
  /\ (forall c, xmlEntity c
               = if N.eqb c Ch.squote then str "&apos;" else htmlEntity c)
  /\ (forall s, ~ In Ch.squote s -> cleanContent s = escapeHtml s)
  /\ (forall s, formattedContent s = flat_map exportChar s)
  /\ (forall s, Forall (fun c => isSpecial c = false /\ c <> Ch.newline) s ->
               formattedContent s = s)
  /\ formattedContent (str "![fig](attachment:k1) and $x^2$")
     = str "![fig](attachment:k1) and $x^2$"
  /\ (forall template data,
        docxContent template data
        = docxHeader template
          ++ flat_map
               (fun sec =>
                  docxSectionBefore ++ section_label sec ++ docxSectionMiddle
                  ++ flat_map exportChar
                       (orElse (values data !! section_id sec) [])
                  ++ docxSectionAfter)
               (sections template)
          ++ docxFooter).
Proof.
  split; [|split; [|split; [|split; [|split; [|split; [|split; [|split;
    [|split]]]]]]]].
  - intros template d1 d2 Hv. unfold docxContent. by rewrite Hv.
  - apply cleanContent_flat_map.
  - apply escapeHtml_flat_map.
  - intros c. by rewrite xmlEntity_changes, htmlEntity_changes.
  - apply xmlEntity_htmlEntity.
  - intros s Hs. rewrite cleanContent_flat_map, escapeHtml_flat_map.
    apply flat_map_agree. intros c Hc. rewrite xmlEntity_htmlEntity.
    case_char c Ch.squote; [by destruct Hs|done].
  - apply formattedContent_flat_map.
  - intros s Hs. rewrite formattedContent_flat_map. apply flat_map_id.
    eapply Forall_impl; [exact Hs|]. intros c [Hc Hn]. unfold exportChar.
    rewrite xmlEntity_htmlEntity, (htmlEntity_plain c Hc).
    case_char c Ch.newline; [done|].
    case_char c Ch.squote; [discriminate Hc|done].
  - reflexivity.
  - intros template data. rewrite docxContent_sections. do 2 f_equal.
    apply flat_map_ext. intros sec.
    by rewrite docxSection_written, formattedContent_flat_map.
Qed.

Lemma export_projection_witness :
  cleanContent (str "a<b & c") = escapeHtml (str "a<b & c")
  /\ formattedContent (str "$x$ ![a](attachment:k)") = str "$x$ ![a](attachment:k)".
Proof.
  destruct export_projection as (_ & _ & _ & _ & _ & Hsame & _ & Hid & _ & _).
  split.
  - apply Hsame. cbn. intros H.
    repeat destruct H as [H|H]; try discriminate H. exact H.
  - apply Hid. repeat constructor; discriminate.
Defined.

(** ** The scan resumes after a match

    The [skip] counters of [replaceAllFrom] and [splitFrom] do what the
    regular-expression engine does with [lastIndex]: after a match the scan
    continues with the text that follows it. *)

Lemma replaceAllFrom_skip {C : Type} (re : jsstring -> option (C * jsstring))
    (f : C -> jsstring) (pre rest : jsstring) :
  replaceAllFrom re f (length pre) (pre ++ rest) = replaceAllFrom re f 0 rest.
Proof. induction pre as [|c pre IH]; [by destruct rest|done]. Qed.

Lemma replaceAll_match {C : Type} (re : jsstring -> option (C * jsstring))
    (f : C -> jsstring) (c : N) (m rest : jsstring) (cap : C) :
  re (c :: m ++ rest) = Some (cap, rest) ->
  replaceAll re f (c :: m ++ rest) = f cap ++ replaceAll re f rest.
Proof.
  intros Hre. unfold replaceAll. cbn [replaceAllFrom]. rewrite Hre.
  replace (length (c :: m ++ rest) - length rest - 1)%nat with (length m)
    by (cbn [length]; rewrite length_app; lia).
  by rewrite replaceAllFrom_skip.
Qed.

Lemma replaceAll_no_match_here {C : Type}
    (re : jsstring -> option (C * jsstring)) (f : C -> jsstring) (c : N)
    (s : jsstring) :
  re (c :: s) = None -> replaceAll re f (c :: s) = c :: replaceAll re f s.
Proof. intros Hre. unfold replaceAll. cbn [replaceAllFrom]. by rewrite Hre. Qed.

Lemma splitFrom_skip (re : jsstring -> option (jsstring * jsstring))
    (pre rest : jsstring) :
  splitFrom re (length pre) (pre ++ rest) = splitFrom re 0 rest.
Proof. induction pre as [|c pre IH]; [by destruct rest|done]. Qed.

Lemma split_match (re : jsstring -> option (jsstring * jsstring)) (c : N)
    (m rest : jsstring) :
  re (c :: m ++ rest) = Some (c :: m, rest) ->
  split re (c :: m ++ rest) = [] :: (c :: m) :: split re rest.
Proof.
  intros Hre. unfold split. cbn [splitFrom]. rewrite Hre.
  replace (length (c :: m) - 1)%nat with (length m) by (cbn [length]; lia).
  by rewrite splitFrom_skip.
Qed.

Lemma split_no_match_here (re : jsstring -> option (jsstring * jsstring))
    (c : N) (s : jsstring) :
  re (c :: s) = None ->
  exists piece pieces,
    split re s = piece :: pieces /\ split re (c :: s) = (c :: piece) :: pieces.
Proof.
  intros Hre. unfold split. cbn [splitFrom]. rewrite Hre.
  assert (splitFrom re 0 s <> []) as Hne.
  { clear Hre. generalize 0%nat. induction s as [|x s IH]; intros n; [done|].
    cbn [splitFrom]. destruct n; [|apply IH].
    destruct (re (x :: s)) as [[? ?]|]; [done|].
    by destruct (splitFrom re 0 s). }
  destruct (splitFrom re 0 s) as [|piece pieces]; [done|]. by eexists _, _.
Qed.

Lemma noDoubleDollar_cons (c : N) (s : jsstring) :
  noDoubleDollar (c :: s)
  <-> ~ (c = Ch.dollar /\ head s = Some Ch.dollar) /\ noDoubleDollar s.
Proof.
  unfold noDoubleDollar. rewrite matchesAnywhere_false_cons.
  apply and_iff_compat_r. cbn [stripPrefix str].
  change (Ascii.N_of_ascii "$") with Ch.dollar.
  rewrite (N.eqb_sym Ch.dollar c).
  destruct (N.eqb_spec c Ch.dollar) as [->|Hc].
  - destruct s as [|d s].
    { split; [intros _ [_ H]; cbn in H; discriminate H | done]. }
    rewrite (N.eqb_sym Ch.dollar d). cbn [head].
    destruct (N.eqb_spec d Ch.dollar) as [->|Hd]; split; try done.
    + intros H. by destruct H.
    + intros _ [_ [= ?]]. done.
  - split; [intros _ [? _]; done | done].
Qed.

(** The body of a block formula: the closing [$$] is the first one. *)
Lemma lazyStar_block (s body rest : jsstring) :
  lazyStar anyChar (stripPrefix (str "$$")) s = Some (body, rest) ->
  s = body ++ str "$$" ++ rest /\ noDoubleDollar (body ++ [Ch.dollar]).
Proof.
  revert body. induction s as [|c s IH]; intros body; cbn [lazyStar].
  - destruct (stripPrefix (str "$$") []) eqn:Hk; done.
  - destruct (stripPrefix (str "$$") (c :: s)) as [r|] eqn:Hk.
    + intros [= <- <-]. split; [exact (stripPrefix_Some _ _ _ Hk)|done].
    + cbn [anyChar].
      destruct (lazyStar anyChar (stripPrefix (str "$$")) s)
        as [[body' r]|]; [|done].
      intros [= <- <-]. destruct (IH body' eq_refl) as [-> Hno].
      split; [done|]. cbn [app]. apply noDoubleDollar_cons. split; [|done].
      intros [-> Hhead]. revert Hk. cbn [stripPrefix str].
      change (Ascii.N_of_ascii "$") with Ch.dollar. rewrite N.eqb_refl.
      destruct body' as [|d body']; cbn [app head] in Hhead |- *.
      * by rewrite N.eqb_refl.
      * injection Hhead as ->. by rewrite N.eqb_refl.
Qed.

(** The body of an inline formula has no [$]. *)
Lemma lazyStar_inline (s body rest : jsstring) :
  lazyStar anyChar (stripPrefix (str "$")) s = Some (body, rest) ->
  s = body ++ str "$" ++ rest /\ dollars body = 0%nat.
Proof.
  revert body. induction s as [|c s IH]; intros body; cbn [lazyStar].
  - destruct (stripPrefix (str "$") []) eqn:Hk; done.
  - destruct (stripPrefix (str "$") (c :: s)) as [r|] eqn:Hk.
    + intros [= <- <-]. split; [exact (stripPrefix_Some _ _ _ Hk)|done].
    + cbn [anyChar].
      destruct (lazyStar anyChar (stripPrefix (str "$")) s)
        as [[body' r]|]; [|done].
      intros [= <- <-]. destruct (IH body' eq_refl) as [-> Hno].
      split; [done|]. unfold dollars in *. cbn [count_occ].
      destruct (N.eq_dec c Ch.dollar) as [->|]; [|done].
      revert Hk. cbn [stripPrefix str].
      change (Ascii.N_of_ascii "$") with Ch.dollar. by rewrite N.eqb_refl.
Qed.

Lemma Some_pair_inj {A B : Type} (a c : A) (b d : B) :
  Some (a, b) = Some (c, d) -> a = c /\ b = d.
Proof. by intros [= -> ->]. Qed.

(** What a match of the math pattern looks like. *)
Lemma mathRe_Some (s whole rest : jsstring) :
  mathRe s = Some (whole, rest) ->
  s = whole ++ rest
  /\ ((exists body,
         whole = str "$$" ++ body ++ str "$$"
         /\ noDoubleDollar (body ++ [Ch.dollar]))
      \/ (exists body,
            whole = str "$" ++ body ++ str "$" /\ dollars body = 0%nat)).
Proof.
  unfold mathRe.
  destruct (stripPrefix (str "$$") s ≫= _) as [[body r]|] eqn:Hblock.
  - intros Heq. apply Some_pair_inj in Heq as [<- <-].
    apply bind_Some in Hblock as (r' & Hr' & Hlazy).
    apply stripPrefix_Some in Hr' as ->.
    apply lazyStar_block in Hlazy as [-> Hno]. split.
    + by rewrite <- !app_assoc.
    + left. by exists body.
  - intros Hm. apply bind_Some in Hm as ([body r] & Hinline & Heq).
    apply Some_pair_inj in Heq as [<- <-].
    apply bind_Some in Hinline as (r' & Hr' & Hlazy).
    apply stripPrefix_Some in Hr' as ->.
    apply lazyStar_inline in Hlazy as [-> Hno]. split.
    + by rewrite <- !app_assoc.
    + right. by exists body.
Qed.

(** ** The pieces of pass 3 *)

Lemma lazyStar_inline_succeeds (s : jsstring) :
  dollars s <> 0%nat -> is_Some (lazyStar anyChar (stripPrefix (str "$")) s).
Proof.
  induction s as [|c s IH]; [done|]. intros Hd.
  apply lazyStar_is_Some_cons.
  destruct (N.eq_dec c Ch.dollar) as [->|Hc]; [left; by eexists|].
  right. split; [done|]. apply IH. revert Hd. unfold dollars.
  cbn [count_occ]. by destruct (N.eq_dec c Ch.dollar).
Qed.

(** An opening [$] that starts no formula has no [$] after it. *)
Lemma mathRe_dollar_None (s : jsstring) :
  mathRe (Ch.dollar :: s) = None -> dollars s = 0%nat.
Proof.
  intros Hnone. destruct (decide (dollars s = 0%nat)) as [|Hd]; [done|].
  apply lazyStar_inline_succeeds in Hd as [[body rest] Hd].
  revert Hnone. unfold mathRe.
  destruct (stripPrefix (str "$$") (Ch.dollar :: s) ≫= _) as [[? ?]|]; [done|].
  change (stripPrefix (str "$") (Ch.dollar :: s)) with (Some s).
  cbn [mbind option_bind]. by rewrite Hd.
Qed.

Lemma mathRe_head (s : jsstring) :
  is_Some (mathRe s) -> head s = Some Ch.dollar.
Proof.
  intros [[whole rest] Hm]. apply mathRe_Some in Hm as [-> [(b & -> & _)|(b & -> & _)]];
    reflexivity.
Qed.

Lemma split_segmented (s : jsstring) : Segmented (split mathRe s).
Proof.
  remember (length s) as n eqn:Hn. revert s Hn.
  induction n as [n IH] using lt_wf_ind. intros [|c s] Hn.
  - apply (seg_last []). cbn. lia.
  - destruct (mathRe (c :: s)) as [[whole rest]|] eqn:Hm.
    + pose proof (mathRe_Some _ _ _ Hm) as [Heq Hform].
      assert (exists m, whole = c :: m /\ s = m ++ rest) as (m & -> & ->).
      { destruct Hform as [(b & -> & _)|(b & -> & _)];
          injection Heq as -> ->; by eexists. }
      rewrite split_match by done.
      apply (seg_formula []); [done|done|].
      apply (IH (length rest)); [|done].
      rewrite Hn. cbn [length]. rewrite length_app. lia.
    + destruct (split_no_match_here mathRe c s Hm)
        as (piece & pieces & Hsplit & ->).
      assert (Segmented (piece :: pieces)) as Hseg.
      { rewrite <- Hsplit. apply (IH (length s)); [|done].
        rewrite Hn. cbn [length]. lia. }
      assert (c = Ch.dollar -> split mathRe s = [s] /\ dollars s = 0%nat)
        as Hdollar.
      { intros ->. apply mathRe_dollar_None in Hm. split; [|done].
        apply split_no_match, matchesAnywhere_dollars;
          [apply mathRe_dollars | lia]. }
      assert (dollars (c :: piece)
              = (if decide (c = Ch.dollar) then 1 else 0) + dollars piece)%nat
        as Hcount.
      { unfold dollars. cbn [count_occ].
        destruct (N.eq_dec c Ch.dollar), (decide (c = Ch.dollar)); done. }
      inversion Hseg as [t Ht|t whole parts Ht Hwhole Hparts]; subst.
      * apply seg_last. rewrite Hcount. case_decide as Hc; [|lia].
        destruct (Hdollar Hc) as [Hs Hd]. rewrite Hs in Hsplit.
        injection Hsplit as <-. lia.
      * apply seg_formula; [|done|done].
        rewrite Hcount. case_decide as Hc; [|lia].
        destruct (Hdollar Hc) as [Hs _]. by rewrite Hs in Hsplit.
Qed.

(** ** Literal replacement, declaratively *)

Lemma replaceLit_Rewrites (p : N) (pat rep s : jsstring) :
  Rewrites (p :: pat) rep s (replaceLit (p :: pat) rep s).
Proof.
  remember (length s) as n eqn:Hn. revert s Hn.
  induction n as [n IH] using lt_wf_ind. intros [|c s] Hn; [constructor|].
  unfold replaceLit.
  destruct (literal (p :: pat) (c :: s)) as [[[] rest]|] eqn:Hm.
  - unfold literal in Hm. apply bind_Some in Hm as (r & Hr & Heq).
    apply Some_pair_inj in Heq as [_ ->].
    apply stripPrefix_Some in Hr. injection Hr as -> ->.
    rewrite (replaceAll_match (literal (p :: pat)) _ p pat rest tt).
    + apply (rw_subst (p :: pat)). apply (IH (length rest)); [|done].
      rewrite Hn. cbn [length]. rewrite length_app. lia.
    + unfold literal.
      change (p :: pat ++ rest) with ((p :: pat) ++ rest).
      by rewrite stripPrefix_app.
  - rewrite replaceAll_no_match_here by done. apply rw_keep.
    apply (IH (length s)); [|done]. rewrite Hn. cbn [length]. lia.
Qed.

Lemma noDoubleDollar_suffix (a b : jsstring) :
  noDoubleDollar (a ++ b) -> noDoubleDollar b.
Proof.
  induction a as [|c a IH]; [done|]. cbn [app].
  rewrite noDoubleDollar_cons. intros [_ ?]. by apply IH.
Qed.

Lemma head_dollar_count (s : jsstring) :
  head s = Some Ch.dollar -> dollars s <> 0%nat.
Proof.
  destruct s as [|c s]; [done|]. intros [= ->]. unfold dollars.
  cbn [count_occ]. by destruct (N.eq_dec Ch.dollar Ch.dollar).
Qed.

Lemma head_app_dollar (a b : jsstring) :
  dollars a = 0%nat -> a <> [] -> head (a ++ b) <> Some Ch.dollar.
Proof.
  destruct a as [|c a]; [done|]. intros Hd _ Hh.
  by apply (head_dollar_count (c :: a)).
Qed.

Lemma noDoubleDollar_plain_app (a b : jsstring) :
  dollars a = 0%nat -> noDoubleDollar b -> noDoubleDollar (a ++ b).
Proof.
  induction a as [|c a IH]; [done|]. intros Hd Hb. cbn [app].
  apply noDoubleDollar_cons.
  assert (c <> Ch.dollar /\ dollars a = 0%nat) as [Hc Ha].
  { revert Hd. unfold dollars. cbn [count_occ].
    by destruct (N.eq_dec c Ch.dollar). }
  split; [by intros [? _]|by apply IH].
Qed.

Lemma noDoubleDollar_few (s : jsstring) :
  (dollars s <= 1)%nat -> noDoubleDollar s.
Proof.
  induction s as [|c s IH]; [done|]. intros Hd.
  assert (dollars (c :: s)
          = (if decide (c = Ch.dollar) then 1 else 0) + dollars s)%nat as Hcount.
  { unfold dollars. cbn [count_occ].
    destruct (N.eq_dec c Ch.dollar), (decide (c = Ch.dollar)); done. }
  apply noDoubleDollar_cons. split; [|apply IH; lia].
  intros [-> Hh]. apply head_dollar_count in Hh.
  rewrite Hcount in Hd. case_decide; [lia|done].
Qed.

(** A piece that does not end with [$] can be followed by anything. *)
Lemma noDoubleDollar_app (a b : jsstring) :
  noDoubleDollar (a ++ [Ch.dollar]) -> noDoubleDollar b ->
  noDoubleDollar (a ++ b).
Proof.
  induction a as [|c a IH]; [done|]. cbn [app].
  rewrite !noDoubleDollar_cons. intros [Hc Ha] Hb. split; [|by apply IH].
  intros [-> Hh]. apply Hc. split; [done|]. by destruct a.
Qed.

Section Rewriting.

Variables pat rep : jsstring.
Hypothesis pat_plain : dollars pat = 0%nat.
Hypothesis rep_plain : dollars rep = 0%nat.
Hypothesis pat_nonempty : pat <> [].
Hypothesis rep_nonempty : rep <> [].

Lemma Rewrites_head (s o t : jsstring) :
  Rewrites pat rep s o ->
  head (o ++ t) = Some Ch.dollar <-> head (s ++ t) = Some Ch.dollar.
Proof.
  destruct 1 as [|c s o _|s o _]; [done|done|].
  rewrite <- !app_assoc. split; intros Hh; exfalso; revert Hh.
  - by apply head_app_dollar.
  - by apply head_app_dollar.
Qed.

Lemma Rewrites_noDoubleDollar (s o t : jsstring) :
  Rewrites pat rep s o -> noDoubleDollar (s ++ t) -> noDoubleDollar (o ++ t).
Proof.
  induction 1 as [|c s o Hrw IH|s o Hrw IH]; [done| |].
  - cbn [app]. rewrite !noDoubleDollar_cons. intros [Hc Hs].
    split; [|by apply IH]. intros [-> Hh]. apply Hc. split; [done|].
    by apply (Rewrites_head s o t).
  - rewrite <- !app_assoc. intros Hs.
    apply noDoubleDollar_plain_app; [done|].
    by apply IH, (noDoubleDollar_suffix pat).
Qed.

Lemma Rewrites_dollars (s o : jsstring) :
  Rewrites pat rep s o -> dollars o = dollars s.
Proof.
  induction 1 as [|c s o Hrw IH|s o Hrw IH]; [done| |].
  - change (c :: o) with ([c] ++ o). change (c :: s) with ([c] ++ s).
    by rewrite !dollars_app, IH.
  - by rewrite !dollars_app, IH, pat_plain, rep_plain.
Qed.

End Rewriting.

(** ** Without KaTeX pass 4 finds nothing *)

Lemma startsWith_app (p r : jsstring) : startsWith (p ++ r) p = true.
Proof. unfold startsWith. by rewrite stripPrefix_app. Qed.

Lemma endsWith_app (a p : jsstring) : endsWith (a ++ p) p = true.
Proof. unfold endsWith. rewrite rev_app_distr. apply startsWith_app. Qed.

Lemma sliceBoth_app (p body q : jsstring) :
  sliceBoth (length p) (length q) (p ++ body ++ q) = body.
Proof.
  unfold sliceBoth. rewrite drop_app_length, !length_app.
  replace (length p + (length body + length q) - length q - length p)%nat
    with (length body) by lia.
  apply take_app_length.
Qed.

Lemma unescapeAngles_noDoubleDollar (body : jsstring) :
  noDoubleDollar (body ++ [Ch.dollar]) ->
  noDoubleDollar (unescapeAngles body ++ [Ch.dollar]).
Proof.
  intros Hb. unfold unescapeAngles.
  apply (Rewrites_noDoubleDollar (str "&gt;") (str ">") eq_refl eq_refl
           ltac:(done) ltac:(done) (replaceLit (str "&lt;") (str "<") body));
    [apply (replaceLit_Rewrites Ch.amp (str "gt;"))|].
  apply (Rewrites_noDoubleDollar (str "&lt;") (str "<") eq_refl eq_refl
           ltac:(done) ltac:(done) body);
    [apply (replaceLit_Rewrites Ch.amp (str "lt;"))|done].
Qed.

Lemma plain_Forall (s : jsstring) :
  dollars s = 0%nat -> Forall (fun x => anyChar x = true /\ x <> Ch.dollar) s.
Proof.
  induction s as [|c s IH]; [constructor|]. unfold dollars. cbn [count_occ].
  destruct (N.eq_dec c Ch.dollar); [done|]. intros Hs.
  constructor; [done|by apply IH].
Qed.

(** How a formula is rendered. *)
Lemma renderPart_block (katex : Katex) (body : jsstring) :
  renderPart katex (str "$$" ++ body ++ str "$$")
  = renderMath katex (unescapeAngles body) true.
Proof.
  unfold renderPart. rewrite startsWith_app.
  rewrite (app_assoc (str "$$") body (str "$$")), endsWith_app.
  rewrite <- app_assoc. cbn [andb]. do 2 f_equal.
  apply (sliceBoth_app (str "$$") body (str "$$")).
Qed.

Lemma renderPart_inline (katex : Katex) (body : jsstring) :
  body <> [] -> dollars body = 0%nat ->
  renderPart katex (str "$" ++ body ++ str "$")
  = renderMath katex (unescapeAngles body) false.
Proof.
  intros Hne Hd. unfold renderPart.
  assert (startsWith (str "$" ++ body ++ str "$") (str "$$") = false) as ->.
  { destruct body as [|d body]; [done|].
    pose proof (plain_Forall _ Hd) as Hall.
    apply Forall_cons in Hall as [[_ Hne'] _].
    unfold startsWith. cbn [app str stripPrefix].
    change (Ascii.N_of_ascii "$") with Ch.dollar. rewrite N.eqb_refl.
    by rewrite (proj2 (N.eqb_neq Ch.dollar d)). }
  rewrite startsWith_app.
  rewrite (app_assoc (str "$") body (str "$")), endsWith_app.
  rewrite <- app_assoc. cbn [andb]. do 2 f_equal.
  apply (sliceBoth_app (str "$") body (str "$")).
Qed.

(** A formula is rendered, without KaTeX, as its body with [&lt;] and
    [&gt;] turned back. *)
Lemma renderPart_formula (whole : jsstring) :
  isFormula whole ->
  exists body,
    renderPart None whole = unescapeAngles body
    /\ noDoubleDollar (body ++ [Ch.dollar]).
Proof.
  intros [(body & -> & Hnd)|(body & -> & Hd)].
  - exists body. by rewrite renderPart_block.
  - destruct body as [|d body].
    { exists []. split; [reflexivity|done]. }
    exists (d :: body). split; [by rewrite renderPart_inline|].
    apply noDoubleDollar_few. rewrite dollars_app, Hd. cbn. lia.
Qed.

Lemma renderPart_text_dollars (t : jsstring) :
  (dollars t <= 1)%nat -> (dollars (renderPart None t) <= 1)%nat.
Proof.
  intros Hd. destruct (decide (t = [Ch.dollar])) as [->|Hne].
  - replace (renderPart None [Ch.dollar]) with (@nil N) by reflexivity.
    unfold dollars. cbn [count_occ]. lia.
  - by rewrite renderPart_literal, dollars_lineBreaks.
Qed.

Lemma rendered_noDoubleDollar (parts : list jsstring) :
  Segmented parts -> noDoubleDollar (concat (map (renderPart None) parts)).
Proof.
  induction 1 as [t Ht|t whole parts Ht Hwhole _ IH]; cbn [map concat].
  - rewrite app_nil_r. by apply noDoubleDollar_few, renderPart_text_dollars.
  - destruct (renderPart_formula whole Hwhole) as (body & -> & Hbody).
    apply noDoubleDollar_plain_app.
    + rewrite renderPart_literal, dollars_lineBreaks; [done|lia|].
      intros ->. discriminate Ht.
    + by apply noDoubleDollar_app; [apply unescapeAngles_noDoubleDollar|].
Qed.

Lemma matchesAnywhere_weaken {C D : Type} (re : jsstring -> option C)
    (re' : jsstring -> option D) (s : jsstring) :
  (forall u, is_Some (re u) -> is_Some (re' u)) ->
  matchesAnywhere re' s = false -> matchesAnywhere re s = false.
Proof.
  intros Himp. induction s as [|c s IH]; [done|].
  rewrite !matchesAnywhere_false_cons. intros [Hhere Hrest].
  split; [|by apply IH].
  destruct (re (c :: s)) eqn:Hm; [|done].
  destruct (Himp (c :: s)) as [x Hx]; [by rewrite Hm|congruence].
Qed.

(** Whatever pass 3 receives, its output without KaTeX has no two [$] in a
    row, so the placeholder pattern of pass 4 matches nowhere in it. *)
Lemma pass4_idle_without_katex (safeHtml : jsstring) :
  noDoubleDollar (pass3 None safeHtml)
  /\ pass4 (pass3 None safeHtml) = pass3 None safeHtml.
Proof.
  assert (noDoubleDollar (pass3 None safeHtml)) as Hnd
    by apply rendered_noDoubleDollar, split_segmented.
  split; [done|]. apply replaceAll_no_match.
  apply (matchesAnywhere_weaken _ (stripPrefix (str "$$"))); [|done].
  intros u [m Hm]. unfold placeholderRe in Hm.
  apply bind_Some in Hm as (r & Hr & _). apply stripPrefix_Some in Hr as ->.
  by eexists.
Qed.

(** ** Formulas *)

Lemma lazyStar_exact {R : Type} (cls : N -> bool) (k : jsstring -> option R)
    (h : N) (cap rest : jsstring) (r : R) :
  headed h k ->
  Forall (fun x => cls x = true /\ x <> h) cap ->
  k rest = Some r ->
  lazyStar cls k (cap ++ rest) = Some (cap, r).
Proof.
  intros Hk Hcap Hrest. induction Hcap as [|x cap [Hx Hxh] _ IH].
  - destruct rest; cbn [app lazyStar]; by rewrite Hrest.
  - cbn [app lazyStar]. destruct (k (x :: cap ++ rest)) eqn:Hhere.
    + assert (head (x :: cap ++ rest) = Some h) as [= ?];
        [apply Hk; by rewrite Hhere | done].
    + by rewrite Hx, IH.
Qed.

(** [$$body$$] at the front of a text is a block formula when [body] has no
    [$]; [$body$] is an inline formula when [body] is not empty and has no
    [$]. *)
Lemma mathRe_block (body rest : jsstring) :
  dollars body = 0%nat ->
  mathRe (str "$$" ++ body ++ str "$$" ++ rest)
  = Some (str "$$" ++ body ++ str "$$", rest).
Proof.
  intros Hd. unfold mathRe. rewrite stripPrefix_app. cbn [mbind option_bind].
  rewrite (lazyStar_exact anyChar _ Ch.dollar body _ rest);
    [done|apply (headed_stripPrefix Ch.dollar)|by apply plain_Forall|].
  apply stripPrefix_app.
Qed.

Lemma mathRe_inline (body rest : jsstring) :
  body <> [] -> dollars body = 0%nat ->
  mathRe (str "$" ++ body ++ str "$" ++ rest)
  = Some (str "$" ++ body ++ str "$", rest).
Proof.
  intros Hne Hd. unfold mathRe.
  assert (stripPrefix (str "$$") (str "$" ++ body ++ str "$" ++ rest) = None)
    as ->.
  { destruct body as [|d body]; [done|].
    pose proof (plain_Forall _ Hd) as Hall.
    apply Forall_cons in Hall as [[_ Hne'] _].
    cbn [app str stripPrefix]. change (Ascii.N_of_ascii "$") with Ch.dollar.
    rewrite N.eqb_refl. by rewrite (proj2 (N.eqb_neq Ch.dollar d)). }
  cbn [mbind option_bind]. rewrite stripPrefix_app. cbn [mbind option_bind].
  rewrite (lazyStar_exact anyChar _ Ch.dollar body _ rest);
    [done|apply (headed_stripPrefix Ch.dollar)|by apply plain_Forall|].
  apply stripPrefix_app.
Qed.

(** Text without [$] in front of the rest of a split. *)
Lemma split_plain_prefix (t s piece : jsstring) (pieces : list jsstring) :
  dollars t = 0%nat ->
  split mathRe s = piece :: pieces ->
  split mathRe (t ++ s) = (t ++ piece) :: pieces.
Proof.
  intros Ht Hs. induction t as [|c t IH]; [done|].
  assert (c <> Ch.dollar /\ dollars t = 0%nat) as [Hc Ht'].
  { revert Ht. unfold dollars. cbn [count_occ].
    by destruct (N.eq_dec c Ch.dollar). }
  cbn [app].
  destruct (split_no_match_here mathRe c (t ++ s)) as (p & ps & Hsplit & ->).
  - destruct (mathRe (c :: t ++ s)) eqn:Hm; [|done].
    assert (head (c :: t ++ s) = Some Ch.dollar) as [= ?];
      [apply mathRe_head; by rewrite Hm | done].
  - rewrite (IH Ht') in Hsplit. by injection Hsplit as <- <-.
Qed.

Lemma split_formula (whole rest : jsstring) :
  mathRe (whole ++ rest) = Some (whole, rest) ->
  split mathRe (whole ++ rest) = [] :: whole :: split mathRe rest.
Proof.
  intros Hm. destruct whole as [|c m].
  - assert (head ([] ++ rest) = Some Ch.dollar) as Hh
      by (apply mathRe_head; by rewrite Hm).
    apply mathRe_Some in Hm as [_ [(b & Hb & _)|(b & Hb & _)]]; done.
  - by apply split_match.
Qed.

Lemma renderPart_plain (katex : Katex) (t : jsstring) :
  dollars t = 0%nat -> renderPart katex t = lineBreaks t.
Proof.
  intros Ht. apply renderPart_literal; [lia|]. intros ->. discriminate Ht.
Qed.


(** ** Escaping and turning back *)

Lemma replaceLit_keep (p c : N) (pat rep s : jsstring) :
  p <> c ->
  replaceLit (p :: pat) rep (c :: s) = c :: replaceLit (p :: pat) rep s.
Proof.
  intros Hne. unfold replaceLit. apply replaceAll_no_match_here. unfold literal.
  cbn [stripPrefix]. by rewrite (proj2 (N.eqb_neq p c)).
Qed.

Lemma replaceLit_hit (p : N) (pat rep s : jsstring) :
  replaceLit (p :: pat) rep ((p :: pat) ++ s)
  = rep ++ replaceLit (p :: pat) rep s.
Proof.
  unfold replaceLit.
  apply (replaceAll_match (literal (p :: pat)) (fun _ => rep) p pat s tt).
  unfold literal. change (p :: pat ++ s) with ((p :: pat) ++ s).
  by rewrite stripPrefix_app.
Qed.

(** Markup without [&] and quotes comes back from [escapeHtml] and
    [unescapeAngles] as it was typed. *)
Lemma unescapeAngles_escapeHtml (body : jsstring) :
  Forall (fun c => c <> Ch.amp /\ c <> Ch.dquote /\ c <> Ch.squote) body ->
  unescapeAngles (escapeHtml body) = body.
Proof.
  intros Hbody. rewrite escapeHtml_flat_map. unfold unescapeAngles.
  set (gtEntity := fun c => if N.eqb c Ch.gt then str "&gt;" else [c]).
  assert (replaceLit (str "&lt;") (str "<") (flat_map htmlEntity body)
          = flat_map gtEntity body) as Hlt.
  { induction Hbody as [|c body (Hamp & Hdq & Hsq) _ IH]; [done|].
    cbn [flat_map]. case_char c Ch.lt.
    { change (replaceLit (Ch.amp :: str "lt;") (str "<")
                ((Ch.amp :: str "lt;") ++ flat_map htmlEntity body)
              = str "<" ++ flat_map gtEntity body).
      rewrite replaceLit_hit. f_equal. exact IH. }
    case_char c Ch.gt.
    { change (replaceLit (Ch.amp :: str "lt;") (str "<")
                (Ch.amp :: str "gt;" ++ flat_map htmlEntity body)
              = Ch.amp :: str "gt;" ++ flat_map gtEntity body).
      unfold replaceLit at 1.
      rewrite replaceAll_no_match_here by reflexivity. f_equal.
      change (replaceLit (Ch.amp :: str "lt;") (str "<")
                (103 :: 116 :: 59 :: flat_map htmlEntity body)
              = 103 :: 116 :: 59 :: flat_map gtEntity body).
      rewrite !replaceLit_keep by done. do 3 f_equal. exact IH. }
    assert (htmlEntity c = [c]) as ->.
    { apply htmlEntity_plain. unfold isSpecial. by no_eqb. }
    assert (gtEntity c = [c]) as -> by (unfold gtEntity; by no_eqb).
    cbn [app]. rewrite (replaceLit_keep Ch.amp c (str "lt;")) by done.
    f_equal. exact IH. }
  rewrite Hlt. clear Hlt.
  induction Hbody as [|c body (Hamp & Hdq & Hsq) _ IH]; [done|].
  cbn [flat_map]. unfold gtEntity at 1. case_char c Ch.gt.
  - change (replaceLit (Ch.amp :: str "gt;") (str ">")
              ((Ch.amp :: str "gt;") ++ flat_map gtEntity body)
            = str ">" ++ body).
    rewrite replaceLit_hit. f_equal. exact IH.
  - cbn [app]. rewrite (replaceLit_keep Ch.amp c (str "gt;")) by done.
    f_equal. exact IH.
Qed.

Lemma pass3_ext (k1 k2 : Katex) (s : jsstring) :
  (forall m d, renderMath k1 m d = renderMath k2 m d) ->
  pass3 k1 s = pass3 k2 s.
Proof.
  intros Hk. unfold pass3. f_equal. apply map_ext. intros part.
  unfold renderPart. by rewrite !Hk.
Qed.

(** ** Rendering *)

Lemma dollars_not_In (s : jsstring) : ~ In Ch.dollar s -> dollars s = 0%nat.
Proof. intros H. by apply count_occ_not_In. Qed.

(** C6. A text with no image reference and no [$] renders, with an empty
    attachment store, to its escaped form with [<br/>] for every newline:
    each of the five characters becomes its entity, each newline the line
    break, and every other character is copied. *)
Theorem render_plain_text (katex : Katex) (inherited : Inherited)
    (text : jsstring) :
  matchesAnywhere imageRe text = false ->
  ~ In Ch.dollar text ->
  render katex inherited text ∅ = lineBreaks (escapeHtml text)
  /\ lineBreaks (escapeHtml text) = flat_map plainChar text.
Proof.
  intros Himg Hd. split; [|apply lineBreaks_escapeHtml].
  apply render_literal; [done| |].
  - rewrite dollars_not_In by done. lia.
  - intros ->. apply Hd. by left.
Qed.

Lemma render_plain_text_witness :
  matchesAnywhere imageRe examplePlainText = false
  /\ ~ In Ch.dollar examplePlainText
  /\ render None noInherited examplePlainText ∅
     = strq "if a&lt;b &amp; &#039;c&#039; then<br/>say &quot;x&quot; !".
Proof.
  assert (matchesAnywhere imageRe examplePlainText = false) as Himg
    by reflexivity.
  assert (~ In Ch.dollar examplePlainText) as Hd.
  { cbn. intros H. repeat destruct H as [H|H]; try discriminate H. exact H. }
  split; [exact Himg|]. split; [exact Hd|].
  exact (proj1 (render_plain_text None noInherited examplePlainText Himg Hd)).
Defined.










(** No markup character is left after pass 1. *)
Lemma escapeHtml_safe (text : jsstring) :
  Forall (fun c => c <> Ch.lt /\ c <> Ch.gt /\ c <> Ch.dquote /\ c <> Ch.squote)
    (escapeHtml text).
Proof.
  rewrite escapeHtml_flat_map. induction text as [|c text IH]; [constructor|].
  cbn [flat_map]. apply Forall_app. split; [|done].
  destruct (isSpecial c) eqn:Hc.
  - apply htmlEntity_special; [done|]. repeat constructor; discriminate.
  - rewrite (htmlEntity_plain c Hc). unfold isSpecial in Hc.
    repeat constructor; intros ->; discriminate Hc.
Qed.

(** Where KaTeX is not loaded, or throws, whatever is typed between two [$]
    reaches the output as it was typed, markup included, as long as it has
    no [&], no quote and no [$] (and the text holds no image reference). *)
Lemma math_fallback_verbatim (katex : Katex) (inherited : Inherited)
    (attachments : gmap jsstring jsstring) (body : jsstring) :
  (forall math displayMode, renderMath katex math displayMode = math) ->
  body <> [] ->
  Forall (fun c => c <> Ch.dollar /\ c <> Ch.amp /\ c <> Ch.dquote
                   /\ c <> Ch.squote) body ->
  matchesAnywhere imageRe (str "$" ++ body ++ str "$") = false ->
  render katex inherited (str "$" ++ body ++ str "$") attachments = body.
Proof.
  intros Hkatex Hne Hbody Himg. unfold render, pass1, pass2.
  rewrite (replaceAll_no_match imageRe)
    by by apply matchesAnywhere_imageRe_escape.
  rewrite (pass3_ext katex None)
    by (intros m d; by rewrite Hkatex).
  rewrite (proj2 (pass4_idle_without_katex _)).
  assert (escapeHtml (str "$" ++ body ++ str "$")
          = str "$" ++ escapeHtml body ++ str "$") as ->.
  { by rewrite !escapeHtml_flat_map, !flat_map_app. }
  assert (dollars (escapeHtml body) = 0%nat) as Hd.
  { rewrite dollars_escapeHtml. apply dollars_not_In. intros Hin.
    apply list_elem_of_In in Hin.
    apply (proj1 (Forall_forall _ _) Hbody) in Hin. by destruct Hin. }
  assert (escapeHtml body <> []) as Hne'.
  { pose proof (length_escapeHtml body) as Hlen. intros Heq.
    rewrite Heq in Hlen. destruct body; [done|cbn in Hlen; lia]. }
  unfold pass3.
  rewrite <- (app_nil_r (str "$" ++ escapeHtml body ++ str "$")).
  rewrite split_formula
    by (rewrite <- !app_assoc; by apply mathRe_inline).
  cbn [map concat]. rewrite renderPart_inline by done.
  rewrite (renderPart_plain None []) by done.
  cbn [renderMath app]. rewrite app_nil_r.
  apply unescapeAngles_escapeHtml.
  eapply Forall_impl; [exact Hbody|]. by intros c (_ & ? & ? & ?).
Qed.

(** C1 fails on the code.  Pass 3 turns [&lt;] and [&gt;] of a formula back
    into [<] and [>], and [renderMath] returns its argument when KaTeX is
    not loaded or throws: the markup typed between two [$] reaches
    [innerHTML] as markup. *)
Theorem math_fallback_emits_markup (inherited : Inherited)
    (attachments : gmap jsstring jsstring) :
  render None inherited (str "$<img src=x onerror=alert(1)>$") attachments
  = str "<img src=x onerror=alert(1)>"
  /\ render (Some (fun _ _ => None)) inherited
       (str "$<img src=x onerror=alert(1)>$") attachments
     = str "<img src=x onerror=alert(1)>"
  /\ render None inherited (str "$$<script>alert(1)</script>$$") attachments
     = str "<script>alert(1)</script>"
  /\ pass2 inherited attachments (pass1 (str "$<img src=x onerror=alert(1)>$"))
     = str "$&lt;img src=x onerror=alert(1)&gt;$".
Proof.
  split; [|split].
  - apply (math_fallback_verbatim None inherited attachments
             (str "<img src=x onerror=alert(1)>")); try done.
    repeat constructor; discriminate.
  - apply (math_fallback_verbatim (Some (fun _ _ => None)) inherited
             attachments (str "<img src=x onerror=alert(1)>")); try done.
    repeat constructor; discriminate.
  - split; vm_compute; reflexivity.
Qed.

(** C2 fails on the code.  The placeholder that pass 2 writes for a resolved
    image starts with [$$IMG_START$$], which pass 3 reads as a block
    formula, and so for [$$IMG_SEP$$] and [$$IMG_END$$]: pass 4 does not
    find the placeholder it would turn into the image markup.  Without
    KaTeX pass 4 replaces nothing, whatever the text and the store. *)
Theorem image_placeholder_read_as_math (katex : Katex) (inherited : Inherited) :
  let attachments : gmap jsstring jsstring := {[ str "k1" := str "data:,P" ]} in
  let text := str "![fig](attachment:k1)" in
  pass2 inherited attachments (pass1 text)
  = str "$$IMG_START$$data:,P$$IMG_SEP$$fig$$IMG_END$$"
  /\ pass4 (str "$$IMG_START$$data:,P$$IMG_SEP$$fig$$IMG_END$$")
     = imageMarkup (str "data:,P") (str "fig")
  /\ split mathRe (str "$$IMG_START$$data:,P$$IMG_SEP$$fig$$IMG_END$$")
     = [[]; str "$$IMG_START$$"; str "data:,P"; str "$$IMG_SEP$$"; str "fig";
        str "$$IMG_END$$"; []]
  /\ render katex inherited text attachments
     = pass4 (renderMath katex (str "IMG_START") true ++ str "data:,P"
              ++ renderMath katex (str "IMG_SEP") true ++ str "fig"
              ++ renderMath katex (str "IMG_END") true)
  /\ render None inherited text attachments
     = str "IMG_STARTdata:,PIMG_SEPfigIMG_END"
  /\ render None inherited text attachments
     <> imageMarkup (str "data:,P") (str "fig")
  /\ (forall anyText (anyStore : gmap jsstring jsstring),
        render None inherited anyText anyStore
        = pass3 None (pass2 inherited anyStore (pass1 anyText))).
Proof.
  cbn zeta.
  assert (pass2 inherited {[ str "k1" := str "data:,P" ]}
            (pass1 (str "![fig](attachment:k1)"))
          = str "$$IMG_START$$data:,P$$IMG_SEP$$fig$$IMG_END$$") as Hpass2
    by (vm_compute; reflexivity).
  assert (split mathRe (str "$$IMG_START$$data:,P$$IMG_SEP$$fig$$IMG_END$$")
          = [[]; str "$$IMG_START$$"; str "data:,P"; str "$$IMG_SEP$$";
             str "fig"; str "$$IMG_END$$"; []]) as Hsplit
    by (vm_compute; reflexivity).
  split; [exact Hpass2|]. split; [vm_compute; reflexivity|].
  split; [exact Hsplit|].
  unfold render. rewrite Hpass2. split; [|split; [|split]].
  - unfold pass3. rewrite Hsplit. cbn [map concat]. f_equal.
    replace (renderPart katex (str "$$IMG_START$$"))
      with (renderMath katex (str "IMG_START") true)
      by (symmetry; apply (renderPart_block katex (str "IMG_START"))).
    replace (renderPart katex (str "$$IMG_SEP$$"))
      with (renderMath katex (str "IMG_SEP") true)
      by (symmetry; apply (renderPart_block katex (str "IMG_SEP"))).
    replace (renderPart katex (str "$$IMG_END$$"))
      with (renderMath katex (str "IMG_END") true)
      by (symmetry; apply (renderPart_block katex (str "IMG_END"))).
    rewrite !renderPart_plain by reflexivity.
    by rewrite !app_nil_r.
  - vm_compute; reflexivity.
  - vm_compute. discriminate.
  - intros anyText anyStore. apply pass4_idle_without_katex.
Qed.

Lemma simpleChar_spec (c : N) :
  simpleChar c = true ->
  isSpecial c = false /\ dot c = true /\ c <> Ch.dollar /\ c <> Ch.rbracket /\ c <> Ch.rparen.
Proof.
  unfold simpleChar. rewrite !andb_true_iff, !negb_true_iff, !N.eqb_neq.
  tauto.
Qed.

Lemma escapeHtml_plain (s : jsstring) :
  Forall (fun c => isSpecial c = false) s -> escapeHtml s = s.
Proof.
  intros Hs. rewrite escapeHtml_flat_map. apply flat_map_id.
  eapply Forall_impl; [exact Hs|]. apply htmlEntity_plain.
Qed.

Lemma lineBreaks_plain (s : jsstring) :
  Forall (fun c => c <> Ch.newline) s -> lineBreaks s = s.
Proof.
  intros Hs. unfold lineBreaks. rewrite replaceLit_single. apply flat_map_id.
  eapply Forall_impl; [exact Hs|]. intros c Hc.
  by rewrite (proj2 (N.eqb_neq c Ch.newline) Hc).
Qed.

Lemma dollars_Forall (s : jsstring) :
  Forall (fun c => c <> Ch.dollar) s -> dollars s = 0%nat.
Proof.
  intros Hs. apply dollars_not_In. intros Hin.
  apply list_elem_of_In in Hin.
  by apply (proj1 (Forall_forall _ _) Hs) in Hin.
Qed.

(** The image pattern on a reference whose alt text and identifier are made
    of simple characters. *)
Lemma imageRe_reference (alt id rest : jsstring) :
  Forall (fun c => simpleChar c = true) alt ->
  Forall (fun c => simpleChar c = true) id ->
  imageRe (str "![" ++ alt ++ str "](attachment:" ++ id ++ str ")" ++ rest)
  = Some ((alt, id), rest).
Proof.
  intros Halt Hid. unfold imageRe. rewrite stripPrefix_app.
  cbn [mbind option_bind].
  rewrite (lazyStar_exact dot afterAlt Ch.rbracket alt _ (id, rest)); [done| | |].
  - apply (headed_bind Ch.rbracket).
  - eapply Forall_impl; [exact Halt|]. intros c H. cbn beta.
    apply simpleChar_spec in H as (_ & ? & _ & ? & _). by split.
  - unfold afterAlt. rewrite stripPrefix_app. cbn [mbind option_bind].
    apply (lazyStar_exact dot _ Ch.rparen id _ rest).
    + apply (headed_stripPrefix Ch.rparen).
    + eapply Forall_impl; [exact Hid|]. intros c H. cbn beta.
      apply simpleChar_spec in H as (_ & ? & _ & _ & ?). by split.
    + apply stripPrefix_app.
Qed.

(** The second half of C2: a reference to an identifier that is neither in
    the store nor the name of an inherited property is rendered as the
    bracketed marker with the alt text. *)
Lemma broken_reference (katex : Katex) (inherited : Inherited)
    (attachments : gmap jsstring jsstring) (alt id : jsstring) :
  Forall (fun c => simpleChar c = true) alt ->
  Forall (fun c => simpleChar c = true) id ->
  attachments !! id = None ->
  inherited id = None ->
  render katex inherited
    (str "![" ++ alt ++ str "](attachment:" ++ id ++ str ")") attachments
  = str "[Broken Image: " ++ alt ++ str "]".
Proof.
  intros Halt Hid Hstore Hproto.
  assert (Forall (fun c => isSpecial c = false) alt) as Halt1.
  { eapply Forall_impl; [exact Halt|]. intros c H. by apply simpleChar_spec. }
  assert (Forall (fun c => isSpecial c = false) id) as Hid1.
  { eapply Forall_impl; [exact Hid|]. intros c H. by apply simpleChar_spec. }
  assert (Forall (fun c => c <> Ch.dollar /\ c <> Ch.newline) alt) as Halt2.
  { eapply Forall_impl; [exact Halt|]. intros c H. cbn beta.
    apply simpleChar_spec in H as (_ & Hdot & ? & _). split; [done|].
    intros ->. discriminate Hdot. }
  unfold render, pass1, pass2.
  rewrite escapeHtml_plain
    by (repeat (apply Forall_app; split); try done; by repeat constructor).
  assert (replaceAll imageRe (resolveImage inherited attachments)
            (str "![" ++ alt ++ str "](attachment:" ++ id ++ str ")")
          = str "[Broken Image: " ++ alt ++ str "]") as ->.
  { pose proof (imageRe_reference alt id [] Halt Hid) as Hre.
    rewrite app_nil_r in Hre.
    change (str "![" ++ alt ++ str "](attachment:" ++ id ++ str ")")
      with (Ch.bang :: (Ch.lbracket :: alt ++ str "](attachment:" ++ id ++ str ")")) in *.
    rewrite <- (app_nil_r (Ch.lbracket :: _)) in *.
    rewrite (replaceAll_match imageRe _ _ _ _ _ Hre).
    unfold resolveImage. rewrite Hstore, Hproto. by rewrite app_nil_r. }
  assert (dollars (str "[Broken Image: " ++ alt ++ str "]") = 0%nat) as Hd.
  { rewrite !dollars_app, (dollars_Forall alt); [done|].
    eapply Forall_impl; [exact Halt2|]. by intros c [? _]. }
  unfold pass3. rewrite split_no_match
    by (apply matchesAnywhere_dollars; [apply mathRe_dollars|lia]).
  cbn [map concat]. rewrite app_nil_r, renderPart_plain by done.
  rewrite lineBreaks_plain.
  - apply replaceAll_no_match, matchesAnywhere_dollars;
      [apply placeholderRe_dollars|lia].
  - repeat (apply Forall_app; split); try by repeat constructor.
    eapply Forall_impl; [exact Halt2|]. by intros c [_ ?].
Qed.

(** The first half of C2 in general: for a reference that resolves, pass 3
    takes the three markers of the placeholder for block formulas, whatever
    the alt text, the identifier and the payload. *)
Lemma resolved_reference (katex : Katex) (inherited : Inherited)
    (attachments : gmap jsstring jsstring) (alt id src : jsstring) :
  Forall (fun c => simpleChar c = true) alt ->
  Forall (fun c => simpleChar c = true) id ->
  attachments !! id = Some src ->
  src <> [] ->
  dollars src = 0%nat ->
  let text := str "![" ++ alt ++ str "](attachment:" ++ id ++ str ")" in
  pass2 inherited attachments (pass1 text)
  = str "$$IMG_START$$" ++ src ++ str "$$IMG_SEP$$" ++ alt ++ str "$$IMG_END$$"
  /\ pass3 katex (pass2 inherited attachments (pass1 text))
     = renderMath katex (str "IMG_START") true ++ lineBreaks src
       ++ renderMath katex (str "IMG_SEP") true ++ alt
       ++ renderMath katex (str "IMG_END") true
  /\ render None inherited text attachments
     = str "IMG_START" ++ lineBreaks src ++ str "IMG_SEP" ++ alt
       ++ str "IMG_END".
Proof.
  intros Halt Hid Hstore Hne Hsrc. cbn zeta.
  assert (Forall (fun c => isSpecial c = false) alt) as Halt1.
  { eapply Forall_impl; [exact Halt|]. intros c H. by apply simpleChar_spec. }
  assert (Forall (fun c => isSpecial c = false) id) as Hid1.
  { eapply Forall_impl; [exact Hid|]. intros c H. by apply simpleChar_spec. }
  assert (Forall (fun c => c <> Ch.dollar /\ c <> Ch.newline) alt) as Halt2.
  { eapply Forall_impl; [exact Halt|]. intros c H. cbn beta.
    apply simpleChar_spec in H as (_ & Hdot & ? & _). split; [done|].
    intros ->. discriminate Hdot. }
  assert (dollars alt = 0%nat) as Hdalt.
  { apply dollars_Forall. eapply Forall_impl; [exact Halt2|]. by intros c [? _]. }
  assert (pass2 inherited attachments
            (pass1 (str "![" ++ alt ++ str "](attachment:" ++ id ++ str ")"))
          = str "$$IMG_START$$" ++ src ++ str "$$IMG_SEP$$" ++ alt
            ++ str "$$IMG_END$$") as Hpass2.
  { unfold pass1, pass2. rewrite escapeHtml_plain
      by (repeat (apply Forall_app; split); try done; by repeat constructor).
    pose proof (imageRe_reference alt id [] Halt Hid) as Hre.
    rewrite app_nil_r in Hre.
    change (str "![" ++ alt ++ str "](attachment:" ++ id ++ str ")")
      with (Ch.bang :: (Ch.lbracket :: alt ++ str "](attachment:" ++ id ++ str ")")) in *.
    rewrite <- (app_nil_r (Ch.lbracket :: _)) in *.
    rewrite (replaceAll_match imageRe _ _ _ _ _ Hre).
    unfold resolveImage. rewrite Hstore. destruct src; [done|].
    by rewrite app_nil_r. }
  assert (forall k : Katex,
            pass3 k (str "$$IMG_START$$" ++ src ++ str "$$IMG_SEP$$" ++ alt
                     ++ str "$$IMG_END$$")
            = renderMath k (str "IMG_START") true ++ lineBreaks src
              ++ renderMath k (str "IMG_SEP") true ++ alt
              ++ renderMath k (str "IMG_END") true) as Hpass3.
  { intros k.
    assert (split mathRe (str "$$IMG_END$$") = [[]; str "$$IMG_END$$"; []])
      as Hend by (vm_compute; reflexivity).
    assert (split mathRe (str "$$IMG_SEP$$" ++ alt ++ str "$$IMG_END$$")
            = [[]; str "$$IMG_SEP$$"; alt; str "$$IMG_END$$"; []]) as Hsep.
    { rewrite (split_formula (str "$$IMG_SEP$$")).
      - by rewrite (split_plain_prefix alt _ [] _ Hdalt Hend), app_nil_r.
      - apply (mathRe_block (str "IMG_SEP")). reflexivity. }
    unfold pass3. rewrite (split_formula (str "$$IMG_START$$")).
    - rewrite (split_plain_prefix src _ [] _ Hsrc Hsep), app_nil_r.
      cbn [map concat].
      replace (renderPart k (str "$$IMG_START$$"))
        with (renderMath k (str "IMG_START") true)
        by (symmetry; apply (renderPart_block k (str "IMG_START"))).
      replace (renderPart k (str "$$IMG_SEP$$"))
        with (renderMath k (str "IMG_SEP") true)
        by (symmetry; apply (renderPart_block k (str "IMG_SEP"))).
      replace (renderPart k (str "$$IMG_END$$"))
        with (renderMath k (str "IMG_END") true)
        by (symmetry; apply (renderPart_block k (str "IMG_END"))).
      rewrite (renderPart_plain k []), (renderPart_plain k src),
        (renderPart_plain k alt) by done.
      rewrite (lineBreaks_plain alt)
        by (eapply Forall_impl; [exact Halt2|]; by intros c [_ ?]).
      by rewrite !app_nil_r.
    - apply (mathRe_block (str "IMG_START")). reflexivity. }
  split; [exact Hpass2|]. split; [by rewrite Hpass2, Hpass3|].
  unfold render. rewrite (proj2 (pass4_idle_without_katex _)).
  by rewrite Hpass2, Hpass3.
Qed.

(** At an input. *)
Lemma broken_image_marker (katex : Katex) :
  render katex noInherited (str "![fig](attachment:k2)")
    {[ str "k1" := str "data:,P" ]}
  = str "[Broken Image: fig]".
Proof.
  apply (broken_reference katex noInherited _ (str "fig") (str "k2"));
    try done; by repeat constructor.
Qed.

(** An identifier that names an inherited property is found although the
    store does not hold it. *)
Lemma inherited_name_resolves :
  let inherited : Inherited :=
    fun k => if decide (k = str "constructor")
             then Some (str "function Object() { [native code] }") else None in
  pass2 inherited ∅ (pass1 (str "![fig](attachment:constructor)"))
  = str "$$IMG_START$$function Object() { [native code] }$$IMG_SEP$$fig$$IMG_END$$".
Proof. vm_compute. reflexivity. Qed.

(** * Further properties of the renderer *)

Lemma escapeHtml_app (a b : jsstring) :
  escapeHtml (a ++ b) = escapeHtml a ++ escapeHtml b.
Proof. by rewrite !escapeHtml_flat_map, flat_map_app. Qed.

Lemma htmlEntity_inj_app (c1 c2 : N) (r1 r2 : jsstring) :
  htmlEntity c1 ++ r1 = htmlEntity c2 ++ r2 -> c1 = c2 /\ r1 = r2.
Proof.
  unfold htmlEntity.
  case_special c1; case_special c2; cbn [app str];
    try (intros H; injection H as ?; subst; done);
    try (intros H; injection H as ?; done).
Qed.

Lemma htmlEntity_nonempty (c : N) : htmlEntity c <> [].
Proof. unfold htmlEntity. case_special c; done. Qed.

(** X1. [escapeHtml] leaves none of [<], [>], the double and the single
    quote in its output, works piece by piece on a concatenation, and loses
    nothing: two different texts never have the same escaped form. *)
Theorem escapeHtml_faithful :
  (forall text,
      Forall (fun c => c <> Ch.lt /\ c <> Ch.gt /\ c <> Ch.dquote
                       /\ c <> Ch.squote) (escapeHtml text))
  /\ (forall a b, escapeHtml (a ++ b) = escapeHtml a ++ escapeHtml b)
  /\ (forall s t, escapeHtml s = escapeHtml t -> s = t).
Proof.
  split; [apply escapeHtml_safe|]. split; [apply escapeHtml_app|].
  intros s t. rewrite !escapeHtml_flat_map. revert t.
  induction s as [|c s IH]; intros [|d t]; cbn [flat_map].
  - done.
  - intros H. symmetry in H. apply app_eq_nil in H as [H _].
    by destruct (htmlEntity_nonempty d).
  - intros H. apply app_eq_nil in H as [H _].
    by destruct (htmlEntity_nonempty c).
  - intros H. apply htmlEntity_inj_app in H as [-> H]. f_equal. by apply IH.
Qed.

Lemma escapeHtml_faithful_witness :
  escapeHtml (str "<") <> escapeHtml (str "&lt;").
Proof.
  intros H. apply (proj2 (proj2 escapeHtml_faithful)) in H.
  vm_compute in H. discriminate H.
Defined.

Lemma replaceLit_entity (p x : N) (pat rep e s : jsstring) :
  (forall t, literal (p :: pat) (x :: e ++ t) = None) ->
  Forall (fun c => c <> p) e ->
  replaceLit (p :: pat) rep (x :: e ++ s)
  = x :: e ++ replaceLit (p :: pat) rep s.
Proof.
  intros Hx He. unfold replaceLit at 1.
  rewrite replaceAll_no_match_here by apply Hx. f_equal.
  fold (replaceLit (p :: pat) rep (e ++ s)). clear Hx.
  induction He as [|c e Hc _ IH]; [done|].
  cbn [app]. rewrite replaceLit_keep by (intros ->; done). by rewrite IH.
Qed.

(** How a formula body comes back from [escapeHtml] and [unescapeAngles]. *)
Lemma unescapeAngles_escapeHtml_chars (body : jsstring) :
  unescapeAngles (escapeHtml body) = flat_map mathChar body.
Proof.
  rewrite escapeHtml_flat_map. unfold unescapeAngles.
  set (ltBack := fun c => if N.eqb c Ch.lt then [Ch.lt] else htmlEntity c).
  assert (replaceLit (str "&lt;") (str "<") (flat_map htmlEntity body)
          = flat_map ltBack body) as ->.
  { induction body as [|c body IH]; [done|].
    cbn [flat_map]. unfold ltBack at 1, htmlEntity at 1.
    case_special c.
    - rewrite <- IH.
      apply (replaceLit_entity Ch.amp Ch.amp (str "lt;") _ (str "amp;"));
        [done|by repeat constructor].
    - change (replaceLit (Ch.amp :: str "lt;") (str "<")
                ((Ch.amp :: str "lt;") ++ flat_map htmlEntity body)
              = str "<" ++ flat_map ltBack body).
      rewrite replaceLit_hit. f_equal. exact IH.
    - rewrite <- IH.
      apply (replaceLit_entity Ch.amp Ch.amp (str "lt;") _ (str "gt;"));
        [done|by repeat constructor].
    - rewrite <- IH.
      apply (replaceLit_entity Ch.amp Ch.amp (str "lt;") _ (str "quot;"));
        [done|by repeat constructor].
    - rewrite <- IH.
      apply (replaceLit_entity Ch.amp Ch.amp (str "lt;") _ (str "#039;"));
        [done|by repeat constructor].
    - assert (htmlEntity c = [c]) as Hp
        by (apply htmlEntity_plain; unfold isSpecial; by no_eqb).
      rewrite ?Hp. cbn [app].
      rewrite (replaceLit_keep Ch.amp c (str "lt;")) by done.
      f_equal. exact IH. }
  induction body as [|c body IH]; [done|].
  cbn [flat_map]. unfold ltBack at 1, mathChar at 1, htmlEntity.
  case_special c.
  - rewrite <- IH.
    apply (replaceLit_entity Ch.amp Ch.amp (str "gt;") _ (str "amp;"));
      [done|by repeat constructor].
  - cbn [app]. rewrite (replaceLit_keep Ch.amp Ch.lt (str "gt;")) by done.
    f_equal. exact IH.
  - change (replaceLit (Ch.amp :: str "gt;") (str ">")
              ((Ch.amp :: str "gt;") ++ flat_map ltBack body)
            = str ">" ++ flat_map mathChar body).
    rewrite replaceLit_hit. f_equal. exact IH.
  - rewrite <- IH.
    apply (replaceLit_entity Ch.amp Ch.amp (str "gt;") _ (str "quot;"));
      [done|by repeat constructor].
  - rewrite <- IH.
    apply (replaceLit_entity Ch.amp Ch.amp (str "gt;") _ (str "#039;"));
      [done|by repeat constructor].
  - cbn [app]. rewrite (replaceLit_keep Ch.amp c (str "gt;")) by done.
    f_equal. exact IH.
Qed.

Lemma no_bang_no_image (s : jsstring) :
  ~ In Ch.bang s -> matchesAnywhere imageRe s = false.
Proof.
  induction s as [|c s IH]; [done|]. intros Hin.
  apply matchesAnywhere_false_cons. split.
  - destruct (imageRe (c :: s)) eqn:Hm; [|done].
    assert (head (c :: s) = Some Ch.bang) as [= ->];
      [apply headed_imageRe; by rewrite Hm|].
    destruct Hin. by left.
  - apply IH. intros H. apply Hin. by right.
Qed.

Lemma escapeHtml_nonempty (s : jsstring) : s <> [] -> escapeHtml s <> [].
Proof.
  intros Hs Heq. pose proof (length_escapeHtml s) as Hlen.
  rewrite Heq in Hlen. destruct s; [done|cbn in Hlen; lia].
Qed.

(** X2. The source of a formula reaches the math renderer with [<] and [>]
    as they were typed and with [&] and the two quotes as entities; every
    other character is handed over unchanged.  This holds for an inline
    formula with a body that is not empty and for a block formula, when the
    body has no [$] and no [!]. *)
Theorem formula_source_to_math (katex : Katex) (inherited : Inherited)
    (attachments : gmap jsstring jsstring) (body : jsstring) :
  ~ In Ch.dollar body ->
  ~ In Ch.bang body ->
  (body <> [] ->
   pass3 katex (pass2 inherited attachments (pass1 (str "$" ++ body ++ str "$")))
   = renderMath katex (flat_map mathChar body) false)
  /\ pass3 katex
       (pass2 inherited attachments (pass1 (str "$$" ++ body ++ str "$$")))
     = renderMath katex (flat_map mathChar body) true
  /\ (forall c, c <> Ch.amp -> c <> Ch.dquote -> c <> Ch.squote ->
                mathChar c = [c]).
Proof.
  intros Hd Hb.
  assert (dollars (escapeHtml body) = 0%nat) as Hde
    by (rewrite dollars_escapeHtml; by apply dollars_not_In).
  assert (forall open,
            ~ In Ch.bang open -> escapeHtml open = open ->
            pass2 inherited attachments (pass1 (open ++ body ++ open))
            = open ++ escapeHtml body ++ open) as Hpass2.
  { intros open Hopen Hesc. unfold pass1, pass2.
    rewrite (replaceAll_no_match imageRe).
    - by rewrite !escapeHtml_app, Hesc.
    - apply matchesAnywhere_imageRe_escape, no_bang_no_image.
      rewrite !in_app_iff. tauto. }
  split; [|split].
  - intros Hne. rewrite (Hpass2 (str "$")); [|by intros [H|[]]|reflexivity].
    unfold pass3.
    rewrite <- (app_nil_r (str "$" ++ escapeHtml body ++ str "$")).
    rewrite split_formula.
    + cbn [map concat]. rewrite renderPart_inline;
        [|by apply escapeHtml_nonempty|done].
      rewrite (renderPart_plain katex []) by done.
      by rewrite app_nil_r, unescapeAngles_escapeHtml_chars.
    + rewrite <- !app_assoc. apply mathRe_inline;
        [by apply escapeHtml_nonempty|done].
  - rewrite (Hpass2 (str "$$"));
      [|by intros [H|[H|[]]]|reflexivity].
    unfold pass3.
    rewrite <- (app_nil_r (str "$$" ++ escapeHtml body ++ str "$$")).
    rewrite split_formula.
    + cbn [map concat]. rewrite renderPart_block.
      rewrite (renderPart_plain katex []) by done.
      by rewrite app_nil_r, unescapeAngles_escapeHtml_chars.
    + rewrite <- !app_assoc. by apply mathRe_block.
  - intros c Hamp Hdq Hsq. unfold mathChar, htmlEntity.
    case_special c; done.
Qed.

Lemma formula_source_to_math_witness :
  ~ In Ch.dollar exampleFormulaBody
  /\ ~ In Ch.bang exampleFormulaBody
  /\ exampleFormulaBody <> []
  /\ pass3 None
       (pass2 noInherited ∅ (pass1 (str "$" ++ exampleFormulaBody ++ str "$")))
     = str "a<b &amp; c>d".
Proof.
  assert (~ In Ch.dollar exampleFormulaBody) as Hd.
  { cbn. intros H. repeat destruct H as [H|H]; try discriminate H. exact H. }
  assert (~ In Ch.bang exampleFormulaBody) as Hb.
  { cbn. intros H. repeat destruct H as [H|H]; try discriminate H. exact H. }
  assert (exampleFormulaBody <> []) as Hne by discriminate.
  split; [exact Hd|]. split; [exact Hb|]. split; [exact Hne|].
  exact (proj1 (formula_source_to_math None noInherited ∅ exampleFormulaBody
                  Hd Hb) Hne).
Defined.

(** A pattern that consumes what it matches. *)
Lemma split_concat (re : jsstring -> option (jsstring * jsstring))
    (s : jsstring) :
  (forall t whole rest,
      re t = Some (whole, rest) -> whole <> [] /\ t = whole ++ rest) ->
  concat (split re s) = s.
Proof.
  intros Hre. remember (length s) as n eqn:Hn. revert s Hn.
  induction n as [n IH] using lt_wf_ind. intros [|c s] Hn; [done|].
  destruct (re (c :: s)) as [[whole rest]|] eqn:Hm.
  - destruct (Hre _ _ _ Hm) as [Hne Heq].
    destruct whole as [|d m]; [done|]. injection Heq as -> ->.
    rewrite split_match by done. cbn [concat app]. do 2 f_equal.
    apply (IH (length rest)); [|done].
    rewrite Hn. cbn [length]. rewrite length_app. lia.
  - destruct (split_no_match_here re c s Hm) as (piece & pieces & Hs & ->).
    cbn [concat app]. f_equal.
    change (piece ++ concat pieces) with (concat (piece :: pieces)).
    rewrite <- Hs. apply (IH (length s)); [|done]. rewrite Hn. cbn. lia.
Qed.

Lemma Segmented_odd (parts : list jsstring) :
  Segmented parts -> Nat.Odd (length parts).
Proof.
  induction 1 as [t Ht|t whole parts _ _ _ [k Hk]]; [by exists 0%nat|].
  exists (S k). cbn [length]. lia.
Qed.

(** X3. The split of pass 3 loses nothing and is regular: the parts put
    together again are the text; their number is odd; text and formulas
    alternate, each text before a formula is free of [$], each formula is
    [$$...$$] closed by the first [$$] after its opening or [$...$] without
    [$] inside, and the last text has at most one [$]. *)
Theorem split_partitions (s : jsstring) :
  concat (split mathRe s) = s
  /\ Segmented (split mathRe s)
  /\ Nat.Odd (length (split mathRe s)).
Proof.
  split; [|split; [apply split_segmented|apply Segmented_odd, split_segmented]].
  apply split_concat. intros t whole rest Hm.
  apply mathRe_Some in Hm as [-> [(b & -> & _)|(b & -> & _)]]; done.
Qed.

(** ** Image references and lines *)

Lemma stripPrefix_line (p v w : jsstring) :
  Forall (fun a => a <> Ch.newline) p ->
  stripPrefix p (v ++ Ch.newline :: w) = afterLine w <$> stripPrefix p v.
Proof.
  intros Hp. revert v. induction Hp as [|a p Ha _ IH]; intros v; [done|].
  destruct v as [|c v]; cbn [app stripPrefix].
  - by rewrite (proj2 (N.eqb_neq a Ch.newline) Ha).
  - destruct (N.eqb a c); [apply IH|done].
Qed.

Lemma lazyStar_line {R : Type} (k : jsstring -> option R) (ext : R -> R)
    (w : jsstring) :
  (forall v, k (v ++ Ch.newline :: w) = ext <$> k v) ->
  forall v,
    lazyStar dot k (v ++ Ch.newline :: w)
    = (fun cr => (cr.1, ext cr.2)) <$> lazyStar dot k v.
Proof.
  intros Hk v. induction v as [|c v IH]; cbn [app lazyStar].
  - pose proof (Hk []) as H0. cbn [app] in H0. rewrite H0.
    by destruct (k []).
  - pose proof (Hk (c :: v)) as Hc. cbn [app] in Hc. rewrite Hc.
    destruct (k (c :: v)); [done|].
    cbn [fmap option_fmap option_map]. destruct (dot c); [|done].
    rewrite IH. by destruct (lazyStar dot k v) as [[cap r]|].
Qed.

Lemma afterAlt_line (v w : jsstring) :
  afterAlt (v ++ Ch.newline :: w)
  = (fun cr => (cr.1, afterLine w cr.2)) <$> afterAlt v.
Proof.
  unfold afterAlt. rewrite stripPrefix_line by (repeat constructor; done).
  destruct (stripPrefix (str "](attachment:") v) as [r|]; [|done].
  cbn [fmap option_fmap option_map mbind option_bind].
  apply (lazyStar_line _ (afterLine w) w).
  intros u. apply stripPrefix_line. repeat constructor; done.
Qed.

(** A match of the image pattern is the same whatever follows the line. *)
Lemma imageRe_line (v w : jsstring) :
  imageRe (v ++ Ch.newline :: w)
  = (fun cr => (cr.1, afterLine w cr.2)) <$> imageRe v.
Proof.
  unfold imageRe. rewrite stripPrefix_line by (repeat constructor; done).
  destruct (stripPrefix (str "![") v) as [r|]; [|done].
  cbn [fmap option_fmap option_map mbind option_bind].
  change (afterLine w r) with (r ++ Ch.newline :: w).
  rewrite (lazyStar_line afterAlt (fun cr => (cr.1, afterLine w cr.2)) w)
    by (intros u; apply afterAlt_line).
  by destruct (lazyStar dot afterAlt r) as [[alt [id rest]]|].
Qed.

(** What a match of the image pattern looks like. *)
Lemma imageRe_Some (s alt id rest : jsstring) :
  imageRe s = Some ((alt, id), rest) ->
  s = str "![" ++ alt ++ str "](attachment:" ++ id ++ str ")" ++ rest
  /\ Forall (fun c => dot c = true) alt
  /\ Forall (fun c => dot c = true) id.
Proof.
  unfold imageRe. intros Hm. apply bind_Some in Hm as (r & Hr & Hm).
  apply bind_Some in Hm as ([alt' [id' rest']] & Hlazy & Heq).
  apply Some_pair_inj in Heq as [Heq <-].
  apply pair_equal_spec in Heq as [<- <-].
  apply stripPrefix_Some in Hr as ->.
  apply lazyStar_Some in Hlazy as (s1 & -> & Hafter & Halt).
  unfold afterAlt in Hafter. apply bind_Some in Hafter as (r2 & Hr2 & Hlazy2).
  apply stripPrefix_Some in Hr2 as ->.
  apply lazyStar_Some in Hlazy2 as (s2 & -> & Hclose & Hid).
  apply stripPrefix_Some in Hclose as ->. done.
Qed.

Lemma imageRe_consumes (s : jsstring) (cap : jsstring * jsstring)
    (rest : jsstring) :
  imageRe s = Some (cap, rest) -> exists m, s = Ch.bang :: m ++ rest.
Proof.
  destruct cap as [alt id]. intros Hm.
  apply imageRe_Some in Hm as [-> _].
  exists (str "[" ++ alt ++ str "](attachment:" ++ id ++ str ")").
  by rewrite <- !app_assoc.
Qed.

Lemma replaceAll_imageRe_line (f : jsstring * jsstring -> jsstring)
    (u w : jsstring) :
  replaceAll imageRe f (u ++ Ch.newline :: w)
  = replaceAll imageRe f u ++ Ch.newline :: replaceAll imageRe f w.
Proof.
  remember (length u) as n eqn:Hn. revert u Hn.
  induction n as [n IH] using lt_wf_ind. intros [|c u] Hn.
  - cbn [app]. apply replaceAll_no_match_here.
    destruct (imageRe (Ch.newline :: w)) eqn:Hm; [|done].
    assert (head (Ch.newline :: w) = Some Ch.bang) as [=];
      apply headed_imageRe; by rewrite Hm.
  - pose proof (imageRe_line (c :: u) w) as Hline.
    destruct (imageRe (c :: u)) as [[cap rest]|] eqn:Hm.
    + destruct (imageRe_consumes _ _ _ Hm) as [m Hu].
      assert (c = Ch.bang /\ u = m ++ rest) as [-> ->] by by injection Hu.
      clear Hu.
      rewrite (replaceAll_match imageRe f Ch.bang m rest cap Hm).
      assert (imageRe (Ch.bang :: m ++ rest ++ Ch.newline :: w)
              = Some (cap, rest ++ Ch.newline :: w)) as Hline'.
      { cbn [app] in Hline. rewrite <- app_assoc in Hline. exact Hline. }
      replace ((Ch.bang :: m ++ rest) ++ Ch.newline :: w)
        with (Ch.bang :: m ++ rest ++ Ch.newline :: w)
        by (cbn [app]; by rewrite <- app_assoc).
      rewrite (replaceAll_match imageRe f Ch.bang m _ cap Hline').
      rewrite <- app_assoc. f_equal.
      apply (IH (length rest)); [|done].
      rewrite Hn. cbn [length]. rewrite length_app. lia.
    + cbn [app]. rewrite !replaceAll_no_match_here by done.
      cbn [app]. f_equal.
      apply (IH (length u)); [|done]. rewrite Hn. cbn [length]. lia.
Qed.

Lemma pass2_newline (inherited : Inherited)
    (attachments : gmap jsstring jsstring) (a b : jsstring) :
  pass2 inherited attachments (pass1 (a ++ Ch.newline :: b))
  = pass2 inherited attachments (pass1 a)
    ++ Ch.newline :: pass2 inherited attachments (pass1 b).
Proof.
  unfold pass1, pass2.
  change (Ch.newline :: b) with ([Ch.newline] ++ b).
  rewrite !escapeHtml_app. apply replaceAll_imageRe_line.
Qed.

(** X4. Image references are resolved line by line: pass 2 of a text is
    pass 2 of its lines, joined by the newlines, and the alt text and the
    identifier of a reference never hold a line terminator. *)
Theorem pass2_line_by_line (inherited : Inherited)
    (attachments : gmap jsstring jsstring) :
  (forall a b,
      pass2 inherited attachments (pass1 (a ++ Ch.newline :: b))
      = pass2 inherited attachments (pass1 a)
        ++ Ch.newline :: pass2 inherited attachments (pass1 b))
  /\ (forall s alt id rest,
        imageRe s = Some ((alt, id), rest) ->
        s = str "![" ++ alt ++ str "](attachment:" ++ id ++ str ")" ++ rest
        /\ Forall (fun c => isLineTerminator c = false) alt
        /\ Forall (fun c => isLineTerminator c = false) id).
Proof.
  split.
  - apply pass2_newline.
  - intros s alt id rest Hm.
    destruct (imageRe_Some _ _ _ _ Hm) as (Heq & Halt & Hid).
    split; [done|].
    split; (eapply Forall_impl; [eassumption|]); intros c Hc;
      unfold dot in Hc; by apply negb_true_iff.
Qed.

Lemma pass2_line_by_line_witness :
  Forall (fun c => isLineTerminator c = false) (str "fig")
  /\ Forall (fun c => isLineTerminator c = false) (str "k1").
Proof.
  apply (proj2 (pass2_line_by_line noInherited ∅)
           (str "![fig](attachment:k1) end") (str "fig") (str "k1")
           (str " end")).
  vm_compute. reflexivity.
Defined.

Lemma simple_plain (s : jsstring) :
  Forall (fun c => simpleChar c = true) s ->
  Forall (fun c => isSpecial c = false) s.
Proof.
  intros Hs. eapply Forall_impl; [exact Hs|]. intros c H.
  by apply simpleChar_spec.
Qed.

(** Pass 2 on a single reference is the callback on its alt text and
    identifier. *)
Lemma pass2_reference (inherited : Inherited)
    (attachments : gmap jsstring jsstring) (alt id : jsstring) :
  Forall (fun c => simpleChar c = true) alt ->
  Forall (fun c => simpleChar c = true) id ->
  pass2 inherited attachments (pass1 (referenceTag alt id))
  = resolveImage inherited attachments (alt, id).
Proof.
  intros Halt Hid. unfold pass1, pass2, referenceTag.
  rewrite escapeHtml_plain
    by (repeat (apply Forall_app; split);
        try (by apply simple_plain); by repeat constructor).
  pose proof (imageRe_reference alt id [] Halt Hid) as Hre.
  rewrite app_nil_r in Hre.
  change (str "![" ++ alt ++ str "](attachment:" ++ id ++ str ")")
    with (Ch.bang :: (Ch.lbracket :: alt ++ str "](attachment:" ++ id ++ str ")"))
    in *.
  rewrite <- (app_nil_r (Ch.lbracket :: _)) in *.
  rewrite (replaceAll_match imageRe _ _ _ _ _ Hre).
  apply app_nil_r.
Qed.

Lemma marker_literal (katex : Katex) (alt : jsstring) :
  Forall (fun c => simpleChar c = true) alt ->
  pass4 (pass3 katex (brokenMarker alt)) = brokenMarker alt.
Proof.
  intros Halt.
  assert (Forall (fun c => c <> Ch.dollar /\ c <> Ch.newline) alt) as Halt2.
  { eapply Forall_impl; [exact Halt|]. intros c H. cbn beta.
    apply simpleChar_spec in H as (_ & Hdot & ? & _). split; [done|].
    intros ->. discriminate Hdot. }
  assert (dollars (brokenMarker alt) = 0%nat) as Hd.
  { unfold brokenMarker. rewrite !dollars_app, (dollars_Forall alt); [done|].
    eapply Forall_impl; [exact Halt2|]. by intros c [? _]. }
  unfold pass3. rewrite split_no_match
    by (apply matchesAnywhere_dollars; [apply mathRe_dollars|lia]).
  cbn [map concat]. rewrite app_nil_r, renderPart_plain by done.
  rewrite lineBreaks_plain.
  - apply replaceAll_no_match, matchesAnywhere_dollars;
      [apply placeholderRe_dollars|lia].
  - unfold brokenMarker.
    repeat (apply Forall_app; split); try by repeat constructor.
    eapply Forall_impl; [exact Halt2|]. by intros c [_ ?].
Qed.

(** X5. A reference whose identifier is not in the store (and names no
    inherited property), or whose stored payload is the empty string, is
    rendered as the bracketed marker with the alt text and nothing else,
    whatever the math renderer is. *)
Theorem unresolved_reference_marker (katex : Katex) (inherited : Inherited)
    (attachments : gmap jsstring jsstring) (alt id : jsstring) :
  Forall (fun c => simpleChar c = true) alt ->
  Forall (fun c => simpleChar c = true) id ->
  (attachments !! id = None /\ inherited id = None)
  \/ attachments !! id = Some [] ->
  render katex inherited (referenceTag alt id) attachments = brokenMarker alt.
Proof.
  intros Halt Hid Hmiss. unfold render.
  rewrite pass2_reference by done.
  assert (resolveImage inherited attachments (alt, id) = brokenMarker alt)
    as ->.
  { unfold resolveImage. by destruct Hmiss as [[-> ->]| ->]. }
  by apply marker_literal.
Qed.

Lemma unresolved_reference_marker_witness :
  render None noInherited (referenceTag (str "fig") (str "k9"))
    {[ str "k9" := [] ]}
  = str "[Broken Image: fig]".
Proof.
  apply (unresolved_reference_marker None noInherited _ (str "fig") (str "k9"));
    [by repeat constructor | by repeat constructor | by right].
Defined.

(** * Further properties of the document handlers *)

Lemma insertAttachment_Some (rd : ReportData) (activeSectionId : jsstring)
    (textarea : option Textarea) (id : jsstring) (now : N)
    (dataUrl altText : jsstring) :
  activeSectionId <> [] ->
  insertAttachment (Some rd) activeSectionId textarea id now dataUrl altText
    (Some rd)
  = Some {| templateId := templateId rd;
            lastModified := now;
            values :=
              <[activeSectionId :=
                  textBefore rd activeSectionId textarea
                  ++ Ch.newline :: referenceTag altText id
                  ++ Ch.newline :: textAfter textarea]> (values rd);
            attachments := <[id := dataUrl]> (attachments rd);
            history := history rd |}.
Proof.
  intros Hsec. destruct activeSectionId as [|c sec]; [done|].
  unfold insertAttachment, handleInputChange, textBefore, textAfter,
    referenceTag.
  destruct textarea as [ta|]; do 3 f_equal; cbn [app];
    by rewrite <- ?app_assoc, ?app_nil_r.
Qed.

(** X6. After [insertAttachment] the store answers the new identifier with
    the payload and every other identifier as before, the active section
    holds the old text with the reference tag, between two newlines, in
    place of the selection (at the end when there is no textarea), every
    other section keeps its value, and the history is untouched.  With a
    caret and no selection nothing of the old text is lost. *)
Theorem insertAttachment_effect (rd : ReportData) (activeSectionId : jsstring)
    (textarea : option Textarea) (id : jsstring) (now : N)
    (dataUrl altText : jsstring) :
  activeSectionId <> [] ->
  exists rd',
    insertAttachment (Some rd) activeSectionId textarea id now dataUrl altText
      (Some rd) = Some rd'
    /\ attachments rd' !! id = Some dataUrl
    /\ (forall k, k <> id -> attachments rd' !! k = attachments rd !! k)
    /\ values rd' !! activeSectionId
       = Some (textBefore rd activeSectionId textarea
               ++ Ch.newline :: referenceTag altText id
               ++ Ch.newline :: textAfter textarea)
    /\ (forall k, k <> activeSectionId -> values rd' !! k = values rd !! k)
    /\ history rd' = history rd
    /\ (forall ta,
          textarea = Some ta ->
          selectionStart ta = selectionEnd ta ->
          textBefore rd activeSectionId textarea ++ textAfter textarea
          = textarea_value ta).
Proof.
  intros Hsec. eexists. split; [by apply insertAttachment_Some|].
  cbn [attachments values history].
  split; [apply lookup_insert_eq|].
  split; [intros k Hk; by apply lookup_insert_ne|].
  split; [apply lookup_insert_eq|].
  split; [intros k Hk; by apply lookup_insert_ne|].
  split; [done|].
  intros ta -> Heq. unfold textBefore, textAfter. rewrite Heq.
  apply take_drop.
Qed.

Lemma insertAttachment_effect_witness :
  exists rd',
    insertAttachment (Some exampleDoc) (str "title")
      (Some {| selectionStart := 2; selectionEnd := 2;
               textarea_value := str "Report" |})
      (str "k2") 1001 (str "data:,Q") (str "Diagram") (Some exampleDoc)
    = Some rd'
    /\ attachments rd' !! str "k2" = Some (str "data:,Q")
    /\ attachments rd' !! str "k1" = Some (str "data:,P")
    /\ values rd' !! str "title"
       = Some (str "Re" ++ Ch.newline :: str "![Diagram](attachment:k2)"
               ++ Ch.newline :: str "port").
Proof.
  destruct (insertAttachment_effect exampleDoc (str "title")
              (Some {| selectionStart := 2; selectionEnd := 2;
                       textarea_value := str "Report" |})
              (str "k2") 1001 (str "data:,Q") (str "Diagram"))
    as (rd' & Hrun & Hnew & Hold & Hval & _); [discriminate|].
  exists rd'. split; [exact Hrun|]. split; [exact Hnew|].
  split; [|exact Hval].
  rewrite Hold by discriminate. reflexivity.
Defined.

(** X7. The reference that [insertAttachment] writes is one that pass 2
    resolves: on the new text of the section and the new store, pass 2
    gives the placeholder carrying the payload and the alt text on a line
    of its own, between pass 2 of the text before and pass 2 of the text
    after, wherever the cursor was. *)
Theorem inserted_reference_resolves (inherited : Inherited) (rd : ReportData)
    (activeSectionId : jsstring) (textarea : option Textarea)
    (id : jsstring) (now : N) (dataUrl altText : jsstring) :
  activeSectionId <> [] ->
  Forall (fun c => simpleChar c = true) altText ->
  Forall (fun c => simpleChar c = true) id ->
  dataUrl <> [] ->
  exists rd' newText,
    insertAttachment (Some rd) activeSectionId textarea id now dataUrl altText
      (Some rd) = Some rd'
    /\ values rd' !! activeSectionId = Some newText
    /\ pass2 inherited (attachments rd') (pass1 newText)
       = pass2 inherited (attachments rd')
           (pass1 (textBefore rd activeSectionId textarea))
         ++ Ch.newline :: placeholderFor dataUrl altText
         ++ Ch.newline
            :: pass2 inherited (attachments rd') (pass1 (textAfter textarea)).
Proof.
  intros Hsec Halt Hid Hdata.
  eexists _, _. split; [by apply insertAttachment_Some|].
  cbn [attachments values]. split; [apply lookup_insert_eq|].
  rewrite !pass2_newline, pass2_reference by done.
  do 2 f_equal. unfold resolveImage. rewrite lookup_insert_eq.
  by destruct dataUrl.
Qed.

Lemma inserted_reference_resolves_witness :
  exists rd' newText,
    insertAttachment (Some exampleDoc) (str "title") None (str "k2") 1001
      (str "data:,Q") (str "Diagram") (Some exampleDoc) = Some rd'
    /\ values rd' !! str "title" = Some newText
    /\ pass2 noInherited (attachments rd') (pass1 newText)
       = pass2 noInherited (attachments rd')
           (pass1 (textBefore exampleDoc (str "title") None))
         ++ Ch.newline :: placeholderFor (str "data:,Q") (str "Diagram")
         ++ Ch.newline
            :: pass2 noInherited (attachments rd') (pass1 (textAfter None)).
Proof.
  apply (inserted_reference_resolves noInherited exampleDoc (str "title") None
           (str "k2") 1001 (str "data:,Q") (str "Diagram"));
    [discriminate | by repeat constructor | by repeat constructor
    | discriminate].
Defined.

(** ** Edits, versions and the store *)

Lemma applyEdit_frame (rd : ReportData) (e : Edit) :
  exists rd',
    applyEdit (Some rd) e = Some rd'
    /\ history rd' = history rd /\ templateId rd' = templateId rd.
Proof.
  destruct e as [id value now|sec textarea id now dataUrl altText].
  - eexists. split; [reflexivity|done].
  - cbn [applyEdit]. destruct sec as [|c sec]; [by exists rd|].
    rewrite insertAttachment_Some by done. by eexists.
Qed.

Lemma applyEdits_frame (edits : list Edit) (rd : ReportData) :
  exists rd',
    applyEdits edits (Some rd) = Some rd'
    /\ history rd' = history rd /\ templateId rd' = templateId rd.
Proof.
  revert rd. induction edits as [|e edits IH]; intros rd; [by exists rd|].
  destruct (applyEdit_frame rd e) as (rd1 & Hrun & Hh & Ht).
  destruct (IH rd1) as (rd2 & Hrun2 & Hh2 & Ht2).
  exists rd2. unfold applyEdits in *. cbn [fold_left]. rewrite Hrun.
  split; [done|]. split; congruence.
Qed.

(** X8. Saved versions are out of reach of edits, and a save can be taken
    back: after a save, whatever sections are edited and attachments
    inserted afterwards, the history still starts with the version just
    saved, and restoring it gives back the section values and the
    attachment store the document had at the save; the restore leaves the
    history as it is. *)
Theorem save_edit_restore (rd : ReportData) (clock : N * N)
    (edits : list Edit) (now : N) :
  exists rd1 rd2 rd3,
    saveVersion clock (Some rd) = Some rd1
    /\ applyEdits edits (Some rd1) = Some rd2
    /\ history rd2 = history rd1
    /\ head (history rd2) = Some (newVersion (fst clock) (snd clock) rd)
    /\ handleRestoreVersion true now (newVersion (fst clock) (snd clock) rd)
         (Some rd2) = Some rd3
    /\ values rd3 = values rd
    /\ attachments rd3 = attachments rd
    /\ history rd3 = history rd2.
Proof.
  eexists. destruct (applyEdits_frame edits
    {| templateId := templateId rd; lastModified := lastModified rd;
       values := values rd; attachments := attachments rd;
       history := take 30 (newVersion (fst clock) (snd clock) rd :: history rd) |})
    as (rd2 & Hrun & Hh & _).
  exists rd2. eexists. split; [apply saveVersion_Some|].
  split; [exact Hrun|]. split; [exact Hh|]. split; [by rewrite Hh|].
  split; [reflexivity|]. done.
Qed.

Lemma str_inj (a b : string) : str a = str b -> a = b.
Proof.
  revert b. induction a as [|x a IH]; intros [|y b]; cbn [str]; try done.
  intros [= Hxy Hab]. f_equal; [|by apply IH].
  by rewrite <- (ascii_N_embedding x), <- (ascii_N_embedding y), Hxy.
Qed.

Lemma toDecimal_inj (m n : N) : toDecimal m = toDecimal n -> m = n.
Proof.
  unfold toDecimal. intros H. apply str_inj in H.
  apply (f_equal NilEmpty.uint_of_string) in H.
  rewrite !NilEmpty.usu in H. injection H as H.
  by rewrite <- (Unsigned.of_to m), <- (Unsigned.of_to n), H.
Qed.

Lemma map_fmap {A B : Type} (f : A -> B) (l : list A) : map f l = f <$> l.
Proof. induction l as [|x l IH]; [done|]. cbn. by rewrite IH. Qed.

Lemma savedVersions_ids (clocks : list (N * N)) (rd : ReportData) :
  map version_id (savedVersions clocks (Some rd))
  = map (fun clock => toDecimal (fst clock)) clocks.
Proof.
  revert rd. induction clocks as [|clock clocks IH]; intros rd; [done|].
  cbn [savedVersions map]. rewrite saveVersion_Some, IH. done.
Qed.

(** X9. The identifier of a version is the decimal form of the clock value
    read at the save, and the decimal form loses nothing: versions saved at
    clock values that are all different have identifiers that are all
    different, and two saves in the same millisecond give the same
    identifier. *)
Theorem version_ids_follow_clock (clocks : list (N * N)) (rd : ReportData) :
  (NoDup (map fst clocks) ->
   NoDup (map version_id (savedVersions clocks (Some rd))))
  /\ (forall t1 t2 t1' t2' rd',
        version_id (newVersion t1 t2 rd) = version_id (newVersion t1' t2' rd')
        <-> t1 = t1').
Proof.
  split.
  - intros Hnd. rewrite savedVersions_ids.
    rewrite <- (map_map fst toDecimal), map_fmap.
    by apply (@NoDup_fmap_2 _ _ toDecimal toDecimal_inj).
  - intros t1 t2 t1' t2' rd'. cbn [newVersion version_id].
    split; [apply toDecimal_inj|by intros ->].
Qed.

Lemma version_ids_follow_clock_witness :
  NoDup (map fst exampleClocks)
  /\ NoDup (map version_id (savedVersions exampleClocks (Some exampleDoc))).
Proof.
  assert (NoDup (map fst exampleClocks)) as Hnd.
  { unfold exampleClocks. rewrite map_map. cbn [fst].
    rewrite map_fmap.
    apply (@NoDup_fmap_2 _ _ N.of_nat Nat2N.inj), NoDup_seq. }
  split; [exact Hnd|].
  exact (proj1 (version_ids_follow_clock exampleClocks exampleDoc) Hnd).
Defined.

Lemma saveVersions_full (clocks : list (N * N)) (rd : ReportData) :
  length (history rd) = 30%nat ->
  exists rd',
    saveVersions clocks (Some rd) = Some rd'
    /\ length (history rd') = 30%nat.
Proof.
  revert rd. induction clocks as [|clock clocks IH]; intros rd Hfull;
    [by exists rd|].
  unfold saveVersions in *. cbn [fold_left]. rewrite saveVersion_Some.
  apply IH. cbn [history take length]. rewrite length_take. lia.
Qed.

(** X10. The name of a new version counts the versions in the history at
    the save; once the history is full all later versions are named
    [Version 31]. *)
Theorem version_names_after_cap (clocks : list (N * N)) (rd : ReportData) :
  length (history rd) = 30%nat ->
  Forall (fun v => version_name v = Some (str "Version 31"))
    (savedVersions clocks (Some rd)).
Proof.
  revert rd. induction clocks as [|clock clocks IH]; intros rd Hfull;
    [constructor|].
  cbn [savedVersions]. constructor.
  - cbn [newVersion version_name]. by rewrite Hfull.
  - rewrite saveVersion_Some. apply IH.
    cbn [history take length]. rewrite length_take. lia.
Qed.

Lemma version_names_after_cap_witness :
  length (history exampleFullDoc) = 30%nat
  /\ Forall (fun v => version_name v = Some (str "Version 31"))
       (savedVersions [(1700, 1700); (1800, 1801)] (Some exampleFullDoc)).
Proof.
  assert (length (history exampleFullDoc) = 30%nat) as Hfull by reflexivity.
  split; [exact Hfull|].
  exact (version_names_after_cap [(1700, 1700); (1800, 1801)] exampleFullDoc
           Hfull).
Defined.

(** ** Storage *)

(** X11. A document written to the storage comes back when its template is
    selected again: values, attachments and history are those written and
    only last-modified is new.  The storage holds one record: after another
    template is selected and its (empty) document written, selecting the
    first template again finds nothing of the first document.  The record
    that a save writes is the document as the save leaves it. *)
Theorem storage_round_trip (rd : ReportData) (now : N) :
  (let back := handleTemplateSelect (templateId rd) now (Some (stored rd)) in
   templateId back = templateId rd
   /\ values back = values rd
   /\ attachments back = attachments rd
   /\ history back = history rd
   /\ lastModified back = now)
  /\ (forall key now',
        key <> templateId rd ->
        let other := handleTemplateSelect key now (Some (stored rd)) in
        let back := handleTemplateSelect (templateId rd) now'
                      (Some (stored other)) in
        values back = ∅ /\ attachments back = ∅ /\ history back = [])
  /\ (forall clock,
        writtenBySave (fst clock) (snd clock) (Some rd)
        = stored <$> saveVersion clock (Some rd)).
Proof.
  split; [|split].
  - cbn zeta. unfold handleTemplateSelect, stored.
    cbn [stored_templateId stored_values stored_history stored_attachments].
    by rewrite decide_True.
  - intros key now' Hkey. cbn zeta. unfold handleTemplateSelect, stored.
    cbn [stored_templateId stored_values stored_history stored_attachments
         templateId].
    rewrite (decide_False (P := templateId rd = key)) by done.
    cbn [templateId]. by rewrite decide_False.
  - intros clock. by rewrite saveVersion_Some.
Qed.

Lemma storage_round_trip_witness :
  let other := handleTemplateSelect (str "research") 2000
                 (Some (stored exampleDocWithHistory)) in
  let back := handleTemplateSelect (str "pfe") 3000 (Some (stored other)) in
  values back = ∅ /\ attachments back = ∅ /\ history back = [].
Proof.
  apply (proj1 (proj2 (storage_round_trip exampleDocWithHistory 2000))
           (str "research") 3000).
  discriminate.
Defined.

(** ** Export *)

Lemma docxSection_agree (v1 v2 : gmap jsstring jsstring)
    (sec : SectionDefinition) :
  orElse (v1 !! section_id sec) [] = orElse (v2 !! section_id sec) [] ->
  docxSection v1 sec = docxSection v2 sec.
Proof. intros H. unfold docxSection. cbn zeta. by rewrite H. Qed.

(** X12. The exported markup is the header, one block per section of the
    template in the template's order, and the footer.  It depends on the
    document only through the values of the template's sections, where a
    section without value counts as one with the empty value: values under
    other keys, attachments, history and timestamps never reach it. *)
Theorem export_reads_template_sections (template : ReportTemplate)
    (d1 d2 : ReportData) :
  docxContent template d1
  = docxHeader template
    ++ flat_map (docxSection (values d1)) (sections template)
    ++ docxFooter
  /\ (agreeOn (sections template) (values d1) (values d2) ->
      docxContent template d1 = docxContent template d2).
Proof.
  split; [apply docxContent_sections|].
  intros Hagree. rewrite !docxContent_sections. do 2 f_equal.
  unfold agreeOn in Hagree.
  induction Hagree as [|sec secs Hsec _ IH]; [done|].
  cbn [flat_map]. by rewrite IH, (docxSection_agree _ _ _ Hsec).
Qed.

Lemma export_reads_template_sections_witness :
  agreeOn (sections exampleTemplate) (values exampleDoc)
    (values exampleDocEmptyAbstract)
  /\ docxContent exampleTemplate exampleDoc
     = docxContent exampleTemplate exampleDocEmptyAbstract.
Proof.
  assert (agreeOn (sections exampleTemplate) (values exampleDoc)
            (values exampleDocEmptyAbstract)) as Hagree.
  { repeat constructor; vm_compute; reflexivity. }
  split; [exact Hagree|].
  exact (proj2 (export_reads_template_sections exampleTemplate exampleDoc
                  exampleDocEmptyAbstract) Hagree).
Defined.

Lemma xmlEntity_inj_app (c1 c2 : N) (r1 r2 : jsstring) :
  xmlEntity c1 ++ r1 = xmlEntity c2 ++ r2 -> c1 = c2 /\ r1 = r2.
Proof.
  unfold xmlEntity.
  case_special c1; case_special c2; cbn [app str];
    try (intros H; injection H as ?; subst; done);
    try (intros H; injection H as ?; done).
Qed.

Lemma xmlEntity_nonempty (c : N) : xmlEntity c <> [].
Proof. unfold xmlEntity. case_special c; done. Qed.

Lemma xmlEntity_safe (c : N) :
  Forall (fun x => x <> Ch.lt /\ x <> Ch.gt /\ x <> Ch.dquote
                   /\ x <> Ch.squote) (xmlEntity c).
Proof.
  unfold xmlEntity. case_special c; repeat constructor; try discriminate;
    by intros ->.
Qed.

(** X13. The export escapes the content of a section and nothing else.
    The exported markup is fixed markup around the title of the template
    and, for each section, around its label and its formatted content: the
    title and the labels are written as they are, unescaped, and the
    content escaped.  The escaped content has none of [<], [>] and the two
    quotes, and two different contents never have the same escaped form;
    every newline of the content becomes the line-break markup, line by
    line. *)
Theorem export_escapes_content_only :
  (forall s,
      Forall (fun c => c <> Ch.lt /\ c <> Ch.gt /\ c <> Ch.dquote
                       /\ c <> Ch.squote) (cleanContent s))
  /\ (forall s t, cleanContent s = cleanContent t -> s = t)
  /\ (forall a b,
        formattedContent (a ++ Ch.newline :: b)
        = formattedContent a ++ lineBreakXml ++ formattedContent b)
  /\ (forall a, ~ In Ch.newline a -> formattedContent a = cleanContent a)
  /\ (forall template,
        docxHeader template
        = docxHeaderBefore ++ title template ++ docxHeaderAfter)
  /\ (forall values sec,
        docxSection values sec
        = docxSectionBefore ++ section_label sec ++ docxSectionMiddle
          ++ formattedContent (orElse (values !! section_id sec) [])
          ++ docxSectionAfter)
  /\ (forall template data,
        docxContent template data
        = docxHeaderBefore ++ title template ++ docxHeaderAfter
          ++ flat_map
               (fun sec =>
                  docxSectionBefore ++ section_label sec ++ docxSectionMiddle
                  ++ formattedContent
                       (orElse (values data !! section_id sec) [])
                  ++ docxSectionAfter)
               (sections template)
          ++ docxFooter).
Proof.
  assert (forall template,
             docxHeader template
             = docxHeaderBefore ++ title template ++ docxHeaderAfter)
    as Hheader.
  { intros template. unfold docxHeader, docxHeaderBefore, docxHeaderAfter.
    cbn [joinLines flat_map app].
    repeat (progress (rewrite <- ?app_assoc; cbn [app])). reflexivity. }
  split; [|split; [|split; [|split; [|split; [|split]]]]].
  - intros s. rewrite cleanContent_flat_map.
    induction s as [|c s IH]; [constructor|].
    cbn [flat_map]. apply Forall_app. split; [apply xmlEntity_safe|done].
  - intros s t. rewrite !cleanContent_flat_map. revert t.
    induction s as [|c s IH]; intros [|d t]; cbn [flat_map].
    + done.
    + intros H. symmetry in H. apply app_eq_nil in H as [H _].
      by destruct (xmlEntity_nonempty d).
    + intros H. apply app_eq_nil in H as [H _].
      by destruct (xmlEntity_nonempty c).
    + intros H. apply xmlEntity_inj_app in H as [-> H]. f_equal. by apply IH.
  - intros a b. rewrite !formattedContent_flat_map.
    change (Ch.newline :: b) with ([Ch.newline] ++ b).
    by rewrite !flat_map_app.
  - intros a Ha. rewrite formattedContent_flat_map, cleanContent_flat_map.
    apply flat_map_agree. intros c Hc. unfold exportChar.
    case_char c Ch.newline; [done|done].
  - exact Hheader.
  - apply docxSection_written.
  - intros template data.
    rewrite docxContent_sections, Hheader, <- !app_assoc. do 4 f_equal.
    apply flat_map_ext. intros sec. apply docxSection_written.
Qed.

Lemma export_escapes_content_only_witness :
  formattedContent (str "a<b" ++ Ch.newline :: str "c")
  = str "a&lt;b</w:t></w:r><w:r><w:br/></w:r><w:r><w:t>c".
Proof.
  destruct export_escapes_content_only as (_ & _ & Hlines & Hline & _ & _).
  rewrite Hlines, !Hline; [reflexivity| |].
  - cbn. intros H. repeat destruct H as [H|H]; try discriminate H. exact H.
  - cbn. intros H. repeat destruct H as [H|H]; try discriminate H. exact H.
Defined.

(** X14. The name of the downloaded file is the title with every code unit
    that is not an ASCII letter or digit replaced by an underscore, one for
    one, followed by [_Report.doc]: the stem has the length of the title,
    holds nothing but letters, digits and underscores, and is the title
    itself when the title is made of letters and digits. *)
Theorem download_name_sanitized (template : ReportTemplate) :
  downloadName template
  = map sanitizeChar (title template) ++ str "_Report.doc"
  /\ length (map sanitizeChar (title template)) = length (title template)
  /\ Forall (fun c => isAlnum c = true \/ c = underscore)
       (map sanitizeChar (title template))
  /\ (Forall (fun c => isAlnum c = true) (title template) ->
      downloadName template = title template ++ str "_Report.doc").
Proof.
  assert (downloadName template
          = map sanitizeChar (title template) ++ str "_Report.doc") as Hname.
  { unfold downloadName. f_equal. unfold replaceAll.
    rewrite (replaceAllFrom_single _ _ (fun c => [sanitizeChar c])).
    - induction (title template) as [|c s IH]; [done|]. cbn. by rewrite IH.
    - intros c s'. unfold notAlnumRe, sanitizeChar.
      destruct (isAlnum c); [by left|right; by exists tt]. }
  split; [exact Hname|]. split; [apply length_map|]. split.
  - clear Hname. induction (title template) as [|c s IH]; [constructor|].
    cbn [map]. constructor; [|done].
    unfold sanitizeChar. destruct (isAlnum c) eqn:Hc; [by left|by right].
  - intros Hall. rewrite Hname. f_equal. clear Hname.
    induction Hall as [|c s Hc _ IH]; [done|].
    cbn [map]. unfold sanitizeChar at 1. by rewrite Hc, IH.
Qed.

Lemma download_name_sanitized_witness :
  downloadName exampleTemplate = str "Article_de_Recherche_Report.doc"
  /\ downloadName
       {| template_id := str "x"; title := str "Report2"; sections := [] |}
     = str "Report2" ++ str "_Report.doc".
Proof.
  split.
  - rewrite (proj1 (download_name_sanitized exampleTemplate)). reflexivity.
  - apply (download_name_sanitized
             {| template_id := str "x"; title := str "Report2";
                sections := [] |}).
    repeat constructor.
Defined.

(** ** Pass 4 on a placeholder *)

Lemma replaceAll_plain_prefix {C : Type}
    (re : jsstring -> option (C * jsstring)) (f : C -> jsstring) (h : N)
    (a s : jsstring) :
  headed h re -> Forall (fun c => c <> h) a ->
  replaceAll re f (a ++ s) = a ++ replaceAll re f s.
Proof.
  intros Hre Ha. induction Ha as [|c a Hc _ IH]; [done|].
  cbn [app]. rewrite replaceAll_no_match_here, IH; [done|].
  destruct (re (c :: a ++ s)) eqn:Hm; [|done].
  assert (head (c :: a ++ s) = Some h) as [= ?];
    [apply Hre; by rewrite Hm|done].
Qed.

Lemma placeholderRe_placeholder (src alt rest : jsstring) :
  Forall (fun c => dot c = true /\ c <> Ch.dollar) src ->
  Forall (fun c => dot c = true /\ c <> Ch.dollar) alt ->
  placeholderRe (placeholderFor src alt ++ rest) = Some ((src, alt), rest).
Proof.
  intros Hsrc Halt. unfold placeholderRe, placeholderFor.
  rewrite <- !app_assoc, stripPrefix_app. cbn [mbind option_bind].
  rewrite (lazyStar_exact dot afterSrc Ch.dollar src _ (alt, rest));
    [done| |done|].
  - apply (headed_bind Ch.dollar).
  - unfold afterSrc. rewrite stripPrefix_app. cbn [mbind option_bind].
    apply (lazyStar_exact dot _ Ch.dollar alt _ rest); [|done|].
    + apply (headed_stripPrefix Ch.dollar).
    + apply stripPrefix_app.
Qed.

(** X15. Pass 4 turns a placeholder into the image markup: where the text
    before has no [$] and the payload and the alt text have neither [$]
    nor a line terminator, the placeholder is replaced by the image element
    with the payload as source and the alt text as alternative and caption,
    and the rest of the text is treated in the same way. *)
Theorem placeholder_materialised (before src alt rest : jsstring) :
  Forall (fun c => c <> Ch.dollar) before ->
  Forall (fun c => dot c = true /\ c <> Ch.dollar) src ->
  Forall (fun c => dot c = true /\ c <> Ch.dollar) alt ->
  pass4 (before ++ placeholderFor src alt ++ rest)
  = before ++ imageMarkup src alt ++ pass4 rest.
Proof.
  intros Hbefore Hsrc Halt. unfold pass4.
  rewrite (replaceAll_plain_prefix _ _ Ch.dollar);
    [|apply (headed_bind Ch.dollar)|done].
  f_equal.
  pose proof (placeholderRe_placeholder src alt rest Hsrc Halt) as Hre.
  assert (placeholderFor src alt ++ rest
          = Ch.dollar
            :: (str "$IMG_START$$" ++ src ++ str "$$IMG_SEP$$" ++ alt
                ++ str "$$IMG_END$$") ++ rest) as Heq.
  { unfold placeholderFor. by rewrite <- !app_assoc. }
  rewrite Heq in *.
  by rewrite (replaceAll_match placeholderRe _ _ _ _ _ Hre).
Qed.

Lemma placeholder_materialised_witness :
  pass4 (str "see " ++ placeholderFor (str "data:,P") (str "fig") ++ str " end")
  = str "see " ++ imageMarkup (str "data:,P") (str "fig") ++ str " end".
Proof.
  rewrite (placeholder_materialised (str "see ") (str "data:,P") (str "fig")
             (str " end")); [reflexivity| | |];
    repeat constructor; discriminate.
Defined.

(** * Properties of the AI assistance *)

(** X16. However the service behaves, [generateSectionContent] ends in one
    of three ways: it returns a text that is not empty, or it fails with one
    of its two messages.  The message about the key is the outcome exactly
    when no client exists and the environment has no key, and then the
    service is not consulted. *)
Theorem generateSectionContent_outcomes (aiClient : option GoogleGenAI)
    (API_KEY : option jsstring)
    (respond : GoogleGenAI -> GenerateContentRequest -> GenerateContentResult)
    (context sectionLabel userPrompt : jsstring) :
  let run r :=
    generateSectionContent aiClient API_KEY r context sectionLabel userPrompt in
  fst (run respond) = getClient aiClient API_KEY
  /\ (forall text,
        snd (run respond) = Fulfilled text ->
        text <> [] /\ is_Some (fst (run respond)))
  /\ (forall message,
        snd (run respond) = Rejected message ->
        message = str "Gemini API Key is missing."
        \/ message = str "Failed to generate content. Please try again.")
  /\ (snd (run respond) = Rejected (str "Gemini API Key is missing.")
      <-> aiClient = None /\ orString API_KEY [] = [])
  /\ (getClient aiClient API_KEY = None ->
      forall respond', run respond' = run respond).
Proof.
  cbn zeta. unfold generateSectionContent. cbn [fst snd].
  split; [done|].
  destruct aiClient as [client|]; cbn [getClient].
  - destruct (respond client _) as [[[|c t]|]|];
      (split; [intros text [= <-]; by split|]);
      (split; [intros message; try discriminate; intros [= <-]; by right|]);
      (split; [split; [discriminate|by intros [? _]]|discriminate]).
  - destruct API_KEY as [[|k key]|];
      try (split; [discriminate|];
           split; [intros message [= <-]; by left|];
           split; [done|done]).
    destruct (respond _ _) as [[[|c t]|]|];
      (split; [intros text [= <-]; by split|]);
      (split; [intros message; try discriminate; intros [= <-]; by right|]);
      (split; [split; [discriminate|by intros [_ ?]]|discriminate]).
Qed.

Lemma generateSectionContent_outcomes_witness :
  generateSectionContent None (Some (str "k")) exampleRespond (str "Report")
    (str "Title") (str "Write")
  = (Some {| apiKey := str "k" |}, Fulfilled (str "2024"))
  /\ str "2024" <> [].
Proof.
  split; [reflexivity|].
  apply (proj1 (proj2 (generateSectionContent_outcomes None (Some (str "k"))
                         exampleRespond (str "Report") (str "Title")
                         (str "Write"))) (str "2024")).
  reflexivity.
Defined.

(** X17. The client is made once: over any sequence of calls of [getClient],
    a client that exists is never replaced, whatever key the environment
    holds later; as long as the environment holds no key no client is made
    and the absence is not remembered; and the client that is made carries
    the first key found. *)
Theorem getClient_made_once :
  (forall client keys, fold_left getClient keys (Some client) = Some client)
  /\ (forall keys,
        Forall (fun k => orString k [] = []) keys ->
        fold_left getClient keys None = None)
  /\ (forall keys1 key keys2,
        Forall (fun k => orString k [] = []) keys1 ->
        key <> [] ->
        fold_left getClient (keys1 ++ Some key :: keys2) None
        = Some {| apiKey := key |}).
Proof.
  assert (forall client keys,
             fold_left getClient keys (Some client) = Some client) as Hkeep.
  { intros client keys. induction keys as [|k keys IH]; [done|exact IH]. }
  assert (forall keys,
             Forall (fun k => orString k [] = []) keys ->
             forall rest,
               fold_left getClient (keys ++ rest) None
               = fold_left getClient rest None) as Hnone.
  { intros keys Hkeys rest.
    induction Hkeys as [|k keys Hk _ IH]; [done|].
    cbn [app fold_left]. by destruct k as [[|c k]|]. }
  split; [exact Hkeep|]. split.
  - intros keys Hkeys.
    by rewrite <- (app_nil_r keys), (Hnone keys Hkeys []).
  - intros keys1 key keys2 Hkeys Hkey. rewrite (Hnone keys1 Hkeys).
    destruct key as [|c key]; [done|]. cbn [fold_left getClient].
    apply Hkeep.
Qed.

Lemma getClient_made_once_witness :
  fold_left getClient [None; Some []; Some (str "k"); None; Some (str "j")]
    None
  = Some {| apiKey := str "k" |}.
Proof.
  apply (proj2 (proj2 getClient_made_once) [None; Some []] (str "k")
           [None; Some (str "j")]); [by repeat constructor|discriminate].
Defined.

(** X18. When [handleAiGenerate] has finished on a document, the busy flag
    is off, and either the generation succeeded, the error is cleared and
    the section holds the value it had when the handler was created,
    followed by a blank line if it was not empty and by a generated text
    that is not empty, whatever was typed into that section while the
    request was pending, the other sections, the attachments and the
    history being as the pending edits left them; or it failed, the document
    is as the pending edits left it and the error shown is one of the two
    messages of the service, never the fallback text. *)
Theorem handleAiGenerate_effect (rd : ReportData)
    (activeTemplate : option ReportTemplate) (section : SectionDefinition)
    (aiPrompt : option jsstring) (aiClient : option GoogleGenAI)
    (API_KEY : option jsstring)
    (respond : GoogleGenAI -> GenerateContentRequest -> GenerateContentResult)
    (during : option ReportData -> option ReportData) (now : N)
    (st : AppState) :
  let st' :=
    snd (handleAiGenerate (Some rd) activeTemplate section aiPrompt aiClient
           API_KEY respond during now st) in
  let existing := orElse (values rd !! section_id section) [] in
  isAiGenerating st' = false
  /\ ((exists separator content,
          content <> []
          /\ (existing = [] -> separator = [])
          /\ (existing <> [] -> separator = [Ch.newline; Ch.newline])
          /\ aiError st' = None
          /\ app_reportData st'
             = handleInputChange (section_id section)
                 (existing ++ separator ++ content) now
                 (during (app_reportData st))
          /\ forall prev,
               during (app_reportData st) = Some prev ->
               exists rd',
                 app_reportData st' = Some rd'
                 /\ values rd' !! section_id section
                    = Some (existing ++ separator ++ content)
                 /\ (forall k,
                       k <> section_id section ->
                       values rd' !! k = values prev !! k)
                 /\ attachments rd' = attachments prev
                 /\ history rd' = history prev)
      \/ (app_reportData st' = during (app_reportData st)
          /\ (aiError st' = Some (str "Gemini API Key is missing.")
              \/ aiError st'
                 = Some (str "Failed to generate content. Please try again.")))).
Proof.
  cbn zeta. unfold handleAiGenerate, generateSectionContent.
  destruct (getClient aiClient API_KEY) as [client|]; cbn [snd].
  - destruct (respond client _) as [text|]; cbn [isAiGenerating].
    + split; [done|]. left.
      exists (match orElse (values rd !! section_id section) [] with
              | [] => []
              | _ => [Ch.newline; Ch.newline]
              end), (orString text (str "No content generated.")).
      cbn [aiError app_reportData].
      split; [by destruct text as [[|c t]|]|].
      split; [by intros ->|].
      split; [by destruct (orElse _ _)|].
      split; [done|]. split; [done|].
      intros prev ->. eexists. split; [reflexivity|].
      cbn [values attachments history].
      split; [apply lookup_insert_eq|].
      split; [intros k Hk; by apply lookup_insert_ne|done].
    + split; [done|]. right. split; [done|by right].
  - split; [done|]. right. split; [done|by left].
Qed.

Lemma handleAiGenerate_effect_witness :
  exists rd' content,
    app_reportData
      (snd (handleAiGenerate (Some exampleDoc) None exampleSection None None
              (Some (str "k")) exampleRespond id 1700 exampleState))
    = Some rd'
    /\ content <> []
    /\ values rd' !! str "title"
       = Some (str "Report" ++ [Ch.newline; Ch.newline] ++ content)
    /\ attachments rd' = attachments exampleDoc.
Proof.
  destruct (handleAiGenerate_effect exampleDoc None exampleSection None None
              (Some (str "k")) exampleRespond id 1700 exampleState)
    as [_ [(sep & content & Hne & _ & Hsep & _ & _ & Hprev)|[_ [H|H]]]];
    [|discriminate H|discriminate H].
  destruct (Hprev exampleDoc eq_refl) as (rd' & Hrd' & Hval & _ & Hatt & _).
  exists rd', content. split; [exact Hrd'|]. split; [exact Hne|].
  split; [|exact Hatt].
  rewrite Hsep in Hval by discriminate. exact Hval.
Defined.
